(** * ServiceAvailability: the availability selector of supa-link

    A shallow embedding of [src/pages/ServiceAvailability.tsx]: the React
    state of the component, its event handlers ([toggleSelect], the two
    effects [loadResources] and [loadSlots]) and the derived [total].

    Conventions of the embedding.
    - A [Date] is its time value in milliseconds ([Z]), or the invalid date;
      the time zone of the browser is a [TimeZone], the two offsets of
      ECMAScript's [LocalTZA], so a local day can have 23 or 25 hours.
    - A price is [number | null]. The state of the component holds prices
      that are whole numbers ([Z]), for which the sums of the code are
      exact as long as they stay below [2^53]; module [Doubles] has the
      total on arbitrary doubles, rounding included.
    - A [Set<string>] is a [gset string]: membership only, no insertion
      order.
    - An [async] function is cut at each [await]: the code before it runs
      in one step, the code after it runs when the response arrives, and
      the requests in between are kept in a list of in-flight requests
      together with the variables the closure captured. *)

From Stdlib Require Import ZArith Ascii String List Lia.
From Stdlib Require Import Floats.PrimFloat.
From Stdlib Require Floats.SpecFloat Floats.FloatOps.
From stdpp Require Import base decidable option list gmap strings pretty.

#[local] Open Scope string_scope.
#[local] Open Scope Z_scope.

Module ServiceAvailability.

(** ** Rows of the two tables *)

(** [Pick<Tables<"business_resources">, "id" | "name" | "business_id">] *)
Record Resource := mkResource {
  res_id : string;
  res_name : string;
  business_id : string;
}.

(** [Pick<Tables<"slots">, "id" | "start_time" | "end_time" | "is_booked"
    | "slot_price" | "resource_id">]; [None] is a [null] price. *)
Record SlotRow := mkSlot {
  slot_id : string;
  start_time : Z;
  end_time : Z;
  is_booked : bool;
  slot_price : option Z;
  resource_id : string;
}.

(** ** JavaScript coercions used by the component *)

(** Truthiness of a [string | undefined]: [undefined] and the empty string
    are falsy. *)
Definition truthy_string (v : option string) : bool :=
  match v with
  | None => false
  | Some EmptyString => false
  | Some (String _ _) => true
  end.

(** [a || b] on [string | undefined]. *)
Definition or_string (a b : option string) : option string :=
  if truthy_string a then a else b.

(** Truthiness of a [number | null]: [null] and [0] are falsy. *)
Definition truthy_number (v : option Z) : bool :=
  match v with
  | None => false
  | Some z => negb (z =? 0)
  end.

(** [ToNumber] on a [number | null]: [null] converts to [0]. *)
Definition to_number (v : option Z) : Z :=
  match v with
  | None => 0
  | Some z => z
  end.

(** [s.slot_price || 0] *)
Definition price_or_zero (s : SlotRow) : Z :=
  if truthy_number (slot_price s) then to_number (slot_price s) else 0.

(** ** The derived total

    [slots.filter((s) => selected.has(s.id))
          .reduce((sum, s) => sum + (s.slot_price || 0), 0)]
    where [selected] is a copy of [selectedSlotIds]. *)
Definition total (slots : list SlotRow) (selectedSlotIds : gset string) : Z :=
  let selected := selectedSlotIds in
  fold_left (fun sum s => sum + price_or_zero s)
            (filter (fun s => slot_id s ∈ selected) slots)
            0.

(** The total as the specification words it: the sum of [price] over the
    slots of the list whose identifier is selected, slot by slot. *)
Fixpoint spec_total (S : list SlotRow) (Σ : gset string) : Z :=
  match S with
  | [] => 0
  | s :: S' =>
      (if decide (slot_id s ∈ Σ) then to_number (slot_price s) else 0)
      + spec_total S' Σ
  end.

(** Identifiers of a fetched slot list. *)
Definition ids (S : list SlotRow) : gset string :=
  list_to_set (map slot_id S).

(** ** Dates

    A [Date] object holds a time value in milliseconds since the epoch, or
    is the invalid date ([new Date("garbage")]). *)
Inductive Date :=
| ValidDate (ms : Z)
| InvalidDate.

(** A [Date] is an object, and every object is truthy, the invalid date
    too. *)
Definition truthy_date (d : Date) : bool := true.

Definition msPerDay : Z := 86400000.

(** ** What a [throw] carries, and the result of a call *)

Record Thrown := mkThrown {
  instanceof_Error : bool;
  message : string;
}.

Inductive Outcome (A : Type) :=
| Returned (a : A)
| Threw (e : Thrown).
Arguments Returned {A} a.
Arguments Threw {A} e.

(** [date.toISOString()]: a [RangeError] on the invalid date. The string
    is kept as the instant it denotes. *)
Definition toISOString (d : Date) : Outcome Z :=
  match d with
  | ValidDate ms => Returned ms
  | InvalidDate => Threw (mkThrown true "Invalid time value")
  end.

(** What the supabase client resolves to: [{ data, error }]. *)
Record Response (A : Type) := mkResponse {
  data : option A;
  resp_error : option Thrown;
}.
Arguments mkResponse {A} data resp_error.
Arguments data {A} r.
Arguments resp_error {A} r.

(** [Pick<Resource, "id" | "name">], the element type of [resources]. *)
Record ResourceItem := mkItem {
  item_id : string;
  item_name : string;
}.

(** The slots query built by [loadSlots]:
    [.eq("resource_id", r).gte("start_time", a).lt("start_time", b)
     .order("start_time", { ascending: true })]. *)
Record SlotQuery := mkQuery {
  q_eq_resource_id : option string;
  q_gte_start_time : Z;
  q_lt_start_time : Z;
  q_order_ascending : bool;
}.

(** The rows a slots query selects: the filters of the query, as the
    record store applies them. *)
Definition query_selects (q : SlotQuery) (row : SlotRow) : bool :=
  bool_decide (q_eq_resource_id q = Some (resource_id row))
  && (q_gte_start_time q <=? start_time row)
  && (start_time row <? q_lt_start_time q).

(** ** The React state of the component, one field per [useState] *)

Record State := mkState {
  selectedDate : Date;
  initialResourceId : option string;
  resources : list ResourceItem;
  selectedResourceId : option string;
  selectedResourceName : string;
  loadingResources : bool;
  slots : list SlotRow;
  loadingSlots : bool;
  error : option string;
  selectedSlotIds : gset string;
}.

Definition setSelectedDate (v : Date) (s : State) : State :=
  mkState v (initialResourceId s) (resources s) (selectedResourceId s)
    (selectedResourceName s) (loadingResources s) (slots s) (loadingSlots s)
    (error s) (selectedSlotIds s).

Definition setResources (v : list ResourceItem) (s : State) : State :=
  mkState (selectedDate s) (initialResourceId s) v (selectedResourceId s)
    (selectedResourceName s) (loadingResources s) (slots s) (loadingSlots s)
    (error s) (selectedSlotIds s).

(** [setSelectedResourceId] with an updater function; a plain value [v] is
    the updater [fun _ => v]. *)
Definition setSelectedResourceId (f : option string -> option string)
    (s : State) : State :=
  mkState (selectedDate s) (initialResourceId s) (resources s)
    (f (selectedResourceId s))
    (selectedResourceName s) (loadingResources s) (slots s) (loadingSlots s)
    (error s) (selectedSlotIds s).

Definition setSelectedResourceName (v : string) (s : State) : State :=
  mkState (selectedDate s) (initialResourceId s) (resources s)
    (selectedResourceId s) v (loadingResources s) (slots s) (loadingSlots s)
    (error s) (selectedSlotIds s).

Definition setLoadingResources (v : bool) (s : State) : State :=
  mkState (selectedDate s) (initialResourceId s) (resources s)
    (selectedResourceId s) (selectedResourceName s) v (slots s)
    (loadingSlots s) (error s) (selectedSlotIds s).

Definition setSlots (v : list SlotRow) (s : State) : State :=
  mkState (selectedDate s) (initialResourceId s) (resources s)
    (selectedResourceId s) (selectedResourceName s) (loadingResources s) v
    (loadingSlots s) (error s) (selectedSlotIds s).

Definition setLoadingSlots (v : bool) (s : State) : State :=
  mkState (selectedDate s) (initialResourceId s) (resources s)
    (selectedResourceId s) (selectedResourceName s) (loadingResources s)
    (slots s) v (error s) (selectedSlotIds s).

Definition setError (v : option string) (s : State) : State :=
  mkState (selectedDate s) (initialResourceId s) (resources s)
    (selectedResourceId s) (selectedResourceName s) (loadingResources s)
    (slots s) (loadingSlots s) v (selectedSlotIds s).

(** [setSelectedSlotIds] with an updater function. *)
Definition setSelectedSlotIds (f : gset string -> gset string)
    (s : State) : State :=
  mkState (selectedDate s) (initialResourceId s) (resources s)
    (selectedResourceId s) (selectedResourceName s) (loadingResources s)
    (slots s) (loadingSlots s) (error s) (f (selectedSlotIds s)).

(** ** Handlers: state and exceptions

    A handler reads and updates the React state and either returns or
    throws; the updates made before a [throw] stay. *)
Definition M (A : Type) : Type := State -> Outcome A * State.

Definition ret {A} (a : A) : M A := fun s => (Returned a, s).

Definition bind {A B} (m : M A) (k : A -> M B) : M B :=
  fun s =>
    match m s with
    | (Returned a, s1) => k a s1
    | (Threw e, s1) => (Threw e, s1)
    end.

Definition throw {A} (e : Thrown) : M A := fun s => (Threw e, s).

Definition get : M State := fun s => (Returned s, s).

Definition modify (f : State -> State) : M unit :=
  fun s => (Returned tt, f s).

Definition lift {A} (o : Outcome A) : M A := fun s => (o, s).

Notation "'let*' x ':=' m 'in' k" := (bind m (fun x => k))
  (at level 10, x name, m at level 100, k at level 200).
Notation "m ';;;' k" := (bind m (fun _ => k))
  (at level 100, k at level 200, right associativity).

(** [try { body } catch (e) { handler } finally { fin }] *)
Definition try_catch_finally {A} (body : M A) (handler : Thrown -> M A)
    (fin : M unit) : M A :=
  fun s =>
    let '(o, s1) :=
      match body s with
      | (Returned a, s1) => (Returned a, s1)
      | (Threw e, s1) => handler e s1
      end in
    match fin s1 with
    | (Returned _, s2) => (o, s2)
    | (Threw e, s2) => (Threw e, s2)
    end.

(** The part of a [try] block that runs up to its first [await]. When it
    reaches the [await] it yields the request it waits for and the block
    stays open ([finally] has not run); when it throws before, [catch] and
    [finally] run at once and nothing is awaited. *)
Definition try_until_await {A} (body : M A) (handler : Thrown -> M unit)
    (fin : M unit) : M (option A) :=
  fun s =>
    match body s with
    | (Returned a, s1) => (Returned (Some a), s1)
    | (Threw e, s1) =>
        (let* _ := handler e in let* _ := fin in ret None) s1
    end.

(** ** [toggleSelect]

    [if (slot.is_booked) return;
     setSelectedSlotIds((prev) => { const next = new Set(prev);
       if (next.has(slot.id)) next.delete(slot.id); else next.add(slot.id);
       return next; })] *)
Definition toggle_updater (slot : SlotRow) (prev : gset string) : gset string :=
  let next := prev in
  if decide (slot_id slot ∈ next) then next ∖ {[slot_id slot]}
  else next ∪ {[slot_id slot]}.

Definition toggleSelect (slot : SlotRow) : M unit :=
  if is_booked slot then ret tt
  else modify (setSelectedSlotIds (toggle_updater slot)).

(** ** Requests in flight

    An [async] function suspended at an [await], with the variables its
    closure captured from the render that started it. *)
Inductive Pending :=
| AwaitSlots (selectedResourceId_c : option string)
             (resources_c : list ResourceItem) (q : SlotQuery)
| AwaitResource (initialResourceId_c : option string)
| AwaitSiblings (initialRes : Resource).

(** [e instanceof Error ? e.message : fallback] *)
Definition message_of (e : Thrown) (fallback : string) : string :=
  if instanceof_Error e then message e else fallback.

(** ** [loadResources], the first effect *)

Definition loadResources_catch (e : Thrown) : M unit :=
  modify (setError (Some (message_of e "Failed to load resources"))).

Definition loadResources_finally : M unit :=
  modify (setLoadingResources false).

(** Up to the first [await]: the guard, the two flags, the first query. *)
Definition loadResources_begin : M (option Pending) :=
  let* s := get in
  if negb (truthy_string (initialResourceId s)) then ret None
  else
    modify (setLoadingResources true) ;;;
    modify (setError None) ;;;
    try_until_await (ret (AwaitResource (initialResourceId s)))
      loadResources_catch loadResources_finally.

(** From the first response to the second [await]. *)
Definition loadResources_resolved (resp : Response Resource)
    : M (option Pending) :=
  try_until_await
    (match resp_error resp with
     | Some rerr => throw rerr
     | None =>
         match data resp with
         | None => throw (mkThrown true "Resource not found")
         | Some initialRes =>
             modify (setSelectedResourceName (res_name initialRes)) ;;;
             ret (AwaitSiblings initialRes)
         end
     end)
    loadResources_catch loadResources_finally.

(** From the second response to the end. *)
Definition loadResources_siblings (initialRes : Resource)
    (resp : Response (list ResourceItem)) : M unit :=
  try_catch_finally
    (match resp_error resp with
     | Some serr => throw serr
     | None =>
         modify (setResources (default [] (data resp))) ;;;
         modify (setSelectedResourceId
                   (fun prev => or_string prev (Some (res_id initialRes))))
     end)
    loadResources_catch loadResources_finally.

(** ** [loadSlots], the second effect *)

(** The time zone of the browser, as [Date] sees it: the offset of local
    time at an instant ([LocalTZA(t, true)]), and the offset that applies
    to a local wall-clock time ([LocalTZA(t, false)]). The two differ
    around a daylight-saving change, and a local day then has 23 or 25
    hours. *)
Record TimeZone := mkZone {
  LocalTZA_utc : Z -> Z;
  LocalTZA_local : Z -> Z;
}.

(** A zone that keeps one offset all year. *)
Definition fixed_zone (offset : Z) : TimeZone :=
  mkZone (fun _ => offset) (fun _ => offset).

Definition utc : TimeZone := fixed_zone 0.

(** [LocalTime(t)] and [UTC(t)] of ECMAScript. *)
Definition LocalTime (tz : TimeZone) (t : Z) : Z := t + LocalTZA_utc tz t.

Definition UTC (tz : TimeZone) (t : Z) : Z := t - LocalTZA_local tz t.

(** [setHours(0, 0, 0, 0)] and [setHours(23, 59, 59, 999)] on a time
    value: the local day of [LocalTime(t)] with the new time of day,
    taken back through [UTC]. *)
Definition startOfDay_ms (tz : TimeZone) (ms : Z) : Z :=
  let t := LocalTime tz ms in
  UTC tz (t - t mod msPerDay).

Definition endOfDay_ms (tz : TimeZone) (ms : Z) : Z :=
  let t := LocalTime tz ms in
  UTC tz (t - t mod msPerDay + (msPerDay - 1)).

Section LocalTime.

Variable tz : TimeZone.

(** date-fns [startOfDay]: [setHours(0, 0, 0, 0)] on a copy. *)
Definition startOfDay (d : Date) : Date :=
  match d with
  | ValidDate ms => ValidDate (startOfDay_ms tz ms)
  | InvalidDate => InvalidDate
  end.

(** date-fns [endOfDay]: [setHours(23, 59, 59, 999)] on a copy. *)
Definition endOfDay (d : Date) : Date :=
  match d with
  | ValidDate ms => ValidDate (endOfDay_ms tz ms)
  | InvalidDate => InvalidDate
  end.

(** date-fns [addDays]: [setDate(getDate() + n)] on a copy, the local
    time of day kept. *)
Definition addDays (d : Date) (n : Z) : Date :=
  match d with
  | ValidDate ms => ValidDate (UTC tz (LocalTime tz ms + n * msPerDay))
  | InvalidDate => InvalidDate
  end.

Definition loadSlots_catch (e : Thrown) : M unit :=
  modify (setError (Some (message_of e "Failed to load slots"))).

Definition loadSlots_finally : M unit :=
  modify (setLoadingSlots false).

(** The query of the [try] block, built from the captured
    [selectedResourceId] and [selectedDate]. *)
Definition loadSlots_query (s : State) : M Pending :=
  let start := startOfDay (selectedDate s) in
  let end_ := endOfDay (selectedDate s) in
  let* a := lift (toISOString start) in
  let* b := lift (toISOString end_) in
  ret (AwaitSlots (selectedResourceId s) (resources s)
         (mkQuery (selectedResourceId s) a b true)).

(** Up to the [await]: the guard, the flags, the reset of the selection,
    the query. *)
Definition loadSlots_begin : M (option Pending) :=
  let* s := get in
  if negb (truthy_string (selectedResourceId s))
     || negb (truthy_date (selectedDate s))
  then ret None
  else
    modify (setLoadingSlots true) ;;;
    modify (setError None) ;;;
    modify (setSelectedSlotIds (fun _ => ∅)) ;;;
    try_until_await (loadSlots_query s) loadSlots_catch loadSlots_finally.

(** From the response to the end. *)
Definition loadSlots_resolved (selectedResourceId_c : option string)
    (resources_c : list ResourceItem) (resp : Response (list SlotRow))
    : M unit :=
  try_catch_finally
    (match resp_error resp with
     | Some serr => throw serr
     | None =>
         modify (setSlots (default [] (data resp))) ;;;
         match find
                 (fun x => bool_decide (Some (item_id x) = selectedResourceId_c))
                 resources_c with
         | Some r => modify (setSelectedResourceName (item_name r))
         | None => ret tt
         end
     end)
    loadSlots_catch loadSlots_finally.

End LocalTime.

(** ** The component as a transition system *)

(** What the component is mounted with. [props_initialDate] is the date
    the initialiser of [selectedDate] builds from [props.initialDate],
    [url_date] the one it builds from a non-empty [?date=], [now] is
    [new Date()]. *)
Record Props := mkProps {
  props_initialResourceId : option string;
  props_initialDate : option Date;
  url_resourceId : option string;
  url_date : option Date;
  now : Date;
}.

(** The state after the [useState] initialisers of the first render. *)
Definition init_state (props : Props) : State :=
  let urlResourceId := or_string (url_resourceId props) None in
  mkState
    (match props_initialDate props with
     | Some d => d
     | None => match url_date props with Some d => d | None => now props end
     end)
    (or_string (props_initialResourceId props) urlResourceId)
    []
    (or_string (props_initialResourceId props) urlResourceId)
    EmptyString false [] false None ∅.

(** React state plus the suspended [async] calls. *)
Record World := mkWorld {
  ui : State;
  inflight : list Pending;
}.

(** Run a handler; a request it awaits joins the ones in flight. *)
Definition run_effect (m : M (option Pending)) (w : World) : World :=
  let '(o, s) := m (ui w) in
  mkWorld s
    (inflight w ++ match o with Returned (Some p) => [p] | _ => [] end).

Definition run_handler (m : M unit) (w : World) : World :=
  mkWorld (snd (m (ui w))) (inflight w).

Definition with_ui (f : State -> State) (w : World) : World :=
  mkWorld (f (ui w)) (inflight w).

Definition settle (k : nat) (w : World) : World :=
  mkWorld (ui w) (delete k (inflight w)).

(** What happens to the component. The venue select passes the
    identifier of the item chosen, the day picker the time value of a day
    or [undefined], a click the index of the rendered row, and a response
    names the request in flight it answers, so responses arrive in any
    order. *)
Inductive Event :=
| SelectVenue (value : string)
| SelectDay (d : option Z)
| ClickRow (idx : nat)
| SlotsResponse (k : nat) (resp : Response (list SlotRow))
| ResourceResponse (k : nat) (resp : Response Resource)
| SiblingsResponse (k : nat) (resp : Response (list ResourceItem)).

(** A value the venue select can emit: the identifier of one of its
    items, which are the [resources] ([resources.map((r) => <SelectItem
    value={r.id}>)]). The empty string is no item: it is the value the
    select itself holds for "no venue" ([value={selectedResourceId || ""}]). *)
Definition listed_venue (value : string) (s : State) : bool :=
  truthy_string (Some value)
  && bool_decide (value ∈ map item_id (resources s)).

(** One event. [None]: the event cannot happen in this state (the select
    is disabled while resources load and offers the listed venues only,
    rows are not rendered while slots load, no such request in flight). The [loadSlots] effect runs after an
    update of one of its dependencies [selectedResourceId], [selectedDate],
    [resources]; setting a string state to the string it holds is no
    update, a date or array from outside is always a new object. *)
Definition dispatch (tz : TimeZone) (ev : Event) (w : World) : option World :=
  match ev with
  | SelectVenue value =>
      if loadingResources (ui w) then None
      else if negb (listed_venue value (ui w)) then None
      else if decide (selectedResourceId (ui w) = Some value) then Some w
      else Some (run_effect (loadSlots_begin tz)
                   (with_ui (setSelectedResourceId (fun _ => Some value)) w))
  | SelectDay None => Some w
  | SelectDay (Some ms) =>
      Some (run_effect (loadSlots_begin tz)
              (with_ui (setSelectedDate (ValidDate ms)) w))
  | ClickRow idx =>
      if loadingSlots (ui w) then None
      else match slots (ui w) !! idx with
           | Some slot => Some (run_handler (toggleSelect slot) w)
           | None => None
           end
  | SlotsResponse k resp =>
      match inflight w !! k with
      | Some (AwaitSlots r rs _) =>
          Some (run_handler (loadSlots_resolved r rs resp) (settle k w))
      | _ => None
      end
  | ResourceResponse k resp =>
      match inflight w !! k with
      | Some (AwaitResource _) =>
          Some (run_effect (loadResources_resolved resp) (settle k w))
      | _ => None
      end
  | SiblingsResponse k resp =>
      match inflight w !! k with
      | Some (AwaitSiblings initialRes) =>
          let w1 := run_handler (loadResources_siblings initialRes resp)
                      (settle k w) in
          match resp_error resp with
          | None => Some (run_effect (loadSlots_begin tz) w1)
          | Some _ => Some w1
          end
      | _ => None
      end
  end.

(** Mounting: first render, then both effects in the order they are
    declared. With an invalid initial date the first render itself throws
    (in [toDisplayHeader], [format] on an invalid date), so the browser
    never shows such a state; the model keeps these states, and what is
    proved of every reachable state is proved of them as well. *)
Definition mount (tz : TimeZone) (props : Props) : World :=
  run_effect (loadSlots_begin tz)
    (run_effect loadResources_begin (mkWorld (init_state props) [])).

Fixpoint run (tz : TimeZone) (evs : list Event) (w : World) : option World :=
  match evs with
  | [] => Some w
  | ev :: evs' =>
      match dispatch tz ev w with
      | Some w' => run tz evs' w'
      | None => None
      end
  end.

Definition reachable (tz : TimeZone) (w : World) : Prop :=
  exists props evs, run tz evs (mount tz props) = Some w.

(** Slot fetches in flight. *)
Definition is_AwaitSlots (p : Pending) : bool :=
  match p with AwaitSlots _ _ _ => true | _ => false end.

Definition count_slots (l : list Pending) : nat :=
  length (filter (fun p => is_AwaitSlots p = true) l).

Definition slot_fetches (w : World) : nat := count_slots (inflight w).

(** At most one slot fetch is in flight: fetches do not overlap. *)
Definition no_overlap (w : World) : bool :=
  bool_decide (slot_fetches w <= 1)%nat.

(** A run all of whose states, the first one included, satisfy [P]. *)
Fixpoint run_within (P : World -> bool) (tz : TimeZone) (evs : list Event)
    (w : World) : option World :=
  if P w then
    match evs with
    | [] => Some w
    | ev :: evs' =>
        match dispatch tz ev w with
        | Some w' => run_within P tz evs' w'
        | None => None
        end
    end
  else None.

Definition reachable_within (P : World -> bool) (tz : TimeZone) (w : World) : Prop :=
  exists props evs, run_within P tz evs (mount tz props) = Some w.

(** The invariant of the selection: every selected identifier is the
    identifier of a slot of the current list that is not booked. *)
Definition selection_valid (s : State) : Prop :=
  forall x, x ∈ selectedSlotIds s ->
    exists slot, slot ∈ slots s /\ slot_id slot = x /\ is_booked slot = false.

(** ** Notions the properties are stated with *)

(** The day of [d] as the half-open interval from its local midnight to
    the local midnight of the next day. *)
Definition in_day (tz : TimeZone) (d : Date) (t : Z) : bool :=
  match startOfDay tz d, startOfDay tz (addDays tz d 1) with
  | ValidDate a, ValidDate b => (a <=? t) && (t <? b)
  | _, _ => false
  end.

(** An event that changes the active resource or the active date. *)
Definition changes_key (ev : Event) (w : World) : Prop :=
  match ev with
  | SelectVenue value => selectedResourceId (ui w) <> Some value
  | SelectDay (Some _) => True
  | _ => False
  end.

(** The (resource, date) key a fetch captured is the one the state has
    now. *)
Definition key_is_current (tz : TimeZone) (q : SlotQuery) (s : State) : bool :=
  bool_decide (q_eq_resource_id q = selectedResourceId s)
  && match startOfDay tz (selectedDate s) with
     | ValidDate a => a =? q_gte_start_time q
     | InvalidDate => false
     end.

(** The fields the invariant reads are the same in both states. *)
Definition same_ledger (s s' : State) : Prop :=
  slots s' = slots s
  /\ selectedSlotIds s' = selectedSlotIds s
  /\ loadingSlots s' = loadingSlots s
  /\ selectedDate s' = selectedDate s.

(** What holds along a run without overlapping fetches: the selection is
    valid; while a slot fetch is in flight the rows are hidden and nothing
    is selected; and no fetch is issued for the invalid date. *)
Definition inv (w : World) : Prop :=
  selection_valid (ui w)
  /\ ((1 <= slot_fetches w)%nat ->
      loadingSlots (ui w) = true /\ selectedSlotIds (ui w) = ∅)
  /\ (selectedDate (ui w) = InvalidDate -> slot_fetches w = 0%nat).

(** ** Presentation: [formatTimeRange] *)

(** [String.prototype.toLowerCase] on the ASCII strings [format] returns
    here: the letters [A] to [Z] go to [a] to [z]. *)
Definition lower_ascii (c : ascii) : ascii :=
  let n := nat_of_ascii c in
  if (65 <=? n)%nat && (n <=? 90)%nat then ascii_of_nat (n + 32) else c.

Fixpoint toLowerCase (s : string) : string :=
  match s with
  | EmptyString => EmptyString
  | String c s' => String (lower_ascii c) (toLowerCase s')
  end.

(** [s] without the prefix [pat], when it starts with it. *)
Fixpoint strip_prefix (pat s : string) : option string :=
  match pat, s with
  | EmptyString, _ => Some s
  | String a pat', String b s' =>
      if Ascii.eqb a b then strip_prefix pat' s' else None
  | String _ _, EmptyString => None
  end.

(** [s.replace(pat, rep)] with a string pattern: the first occurrence of
    [pat] is replaced ([rep] holds no [$]). *)
Fixpoint replace (pat rep s : string) : string :=
  match strip_prefix pat s with
  | Some rest => (rep ++ rest)%string
  | None =>
      match s with
      | EmptyString => EmptyString
      | String c s' => String c (replace pat rep s')
      end
  end.

(** [Date.prototype.getHours]: the hour of the local day. *)
Definition getHours (tz : TimeZone) (ms : Z) : Z :=
  (LocalTime tz ms mod msPerDay) / 3600000.

(** date-fns [format(d, "ha")]: token [h] is [hours % 12], with [12] for
    [0], not padded; token [a] is [AM] or [PM]; a [RangeError] on the
    invalid date. *)
Definition format_ha (tz : TimeZone) (d : Date) : Outcome string :=
  match d with
  | InvalidDate => Threw (mkThrown true "Invalid time value")
  | ValidDate ms =>
      let hours := getHours tz ms in
      let h := if hours mod 12 =? 0 then 12 else hours mod 12 in
      let a := if 1 <=? hours / 12 then "PM" else "AM" in
      Returned (pretty h ++ a)%string
  end.

(** [formatTimeRange]; [parseDate] is [new Date(string)].
    [try { ... return `${sStr.replace("m", "m")} - ${eStr.replace("m", "m")}` }
     catch { return `${startISO} - ${endISO}` }] *)
Definition formatTimeRange (parseDate : string -> Date) (tz : TimeZone)
    (startISO endISO : string) : Outcome string :=
  let s := parseDate startISO in
  let e := parseDate endISO in
  let body :=
    match format_ha tz s with
    | Threw x => Threw x
    | Returned sUpper =>
        let sStr := toLowerCase sUpper in
        match format_ha tz e with
        | Threw x => Threw x
        | Returned eUpper =>
            let eStr := toLowerCase eUpper in
            Returned (replace "m" "m" sStr ++ " - " ++ replace "m" "m" eStr)%string
        end
    end in
  match body with
  | Returned label => Returned label
  | Threw _ => Returned (startISO ++ " - " ++ endISO)%string
  end.

(** The label of an hour of the day on the 12-hour clock, as the table
    shows it. *)
Definition hour_label (hours : Z) : string :=
  let h := if hours mod 12 =? 0 then 12 else hours mod 12 in
  let a := if hours <? 12 then "am" else "pm" in
  (pretty h ++ a)%string.

(** ** What the render shows of the state *)

(** A row of the table body. *)
Inductive BodyRow :=
| LoadingRow
| NoSlotsRow
| SlotRowView (idx : nat) (slot : SlotRow) (isSelected : bool).

(** The three expressions of [<tbody>]:
    [{loadingSlots && ...}], [{!loadingSlots && slots.length === 0 && ...}],
    [{!loadingSlots && slots.map((slot, idx) => ...)}]. *)
Definition table_body (s : State) : list BodyRow :=
  (if loadingSlots s then [LoadingRow] else [])
  ++ (if negb (loadingSlots s) && (length (slots s) =? 0)%nat
      then [NoSlotsRow] else [])
  ++ (if negb (loadingSlots s)
      then imap (fun idx slot =>
                   SlotRowView idx slot
                     (bool_decide (slot_id slot ∈ selectedSlotIds s)))
             (slots s)
      else []).

(** [disabled={selectedSlotIds.size === 0}] of the BOOK NOW button. *)
Definition book_disabled (s : State) : bool :=
  (size (selectedSlotIds s) =? 0)%nat.

(** [{error && (<div>{error}</div>)}]: the message shown, if any. *)
Definition error_banner (s : State) : option string :=
  if truthy_string (error s) then error s else None.

(** Requests of [loadResources] in flight. *)
Definition is_resolve (p : Pending) : bool :=
  match p with AwaitSlots _ _ _ => false | _ => true end.

Definition count_resolve (l : list Pending) : nat :=
  length (filter (fun p => is_resolve p = true) l).

Definition resolve_requests (w : World) : nat := count_resolve (inflight w).

(** A slots query for a present resource and one local day: from what
    [startOfDay] gives for some date up to, and without, what [endOfDay]
    gives for the same date, ascending. *)
Definition day_query (tz : TimeZone) (r : option string) (q : SlotQuery) : Prop :=
  truthy_string r = true
  /\ q_eq_resource_id q = r
  /\ q_order_ascending q = true
  /\ exists ms, q_gte_start_time q = startOfDay_ms tz ms
               /\ q_lt_start_time q = endOfDay_ms tz ms.

(** What holds in every state of the component: the loading flags
    against the requests in flight, and the shape of the queries. *)
Definition machine_inv (tz : TimeZone) (w : World) : Prop :=
  (loadingSlots (ui w) = true -> (1 <= slot_fetches w)%nat)
  /\ (resolve_requests w <= 1)%nat
  /\ (loadingResources (ui w) = true <-> resolve_requests w = 1%nat)
  /\ (truthy_string (initialResourceId (ui w)) = false ->
      resources (ui w) = [] /\ resolve_requests w = 0%nat)
  /\ (forall r rs q, AwaitSlots r rs q ∈ inflight w -> day_query tz r q).

(** ** The total on the numbers of JavaScript

    A [number] is an IEEE 754 double, and [+] rounds to the nearest one;
    here the total is on those numbers, as the code computes it. *)
Module Doubles.

Record SlotRow := mkSlot {
  slot_id : string;
  start_time : Z;
  end_time : Z;
  is_booked : bool;
  slot_price : option float;
  resource_id : string;
}.

(** Truthiness of a [number | null]: [null], [0], [-0] and [NaN] are
    falsy. *)
Definition truthy_number (v : option float) : bool :=
  match v with
  | None => false
  | Some x => negb (PrimFloat.is_zero x || PrimFloat.is_nan x)
  end.

(** [s.slot_price || 0] *)
Definition price_or_zero (s : SlotRow) : float :=
  match slot_price s with
  | Some x => if truthy_number (Some x) then x else 0%float
  | None => 0%float
  end.

(** [slots.filter((s) => selected.has(s.id))
          .reduce((sum, s) => sum + (s.slot_price || 0), 0)] *)
Definition total (slots : list SlotRow) (selectedSlotIds : gset string)
    : float :=
  let selected := selectedSlotIds in
  fold_left (fun sum s => PrimFloat.add sum (price_or_zero s))
            (filter (fun s => slot_id s ∈ selected) slots)
            0%float.


Definition ids (S : list SlotRow) : gset string :=
  list_to_set (map slot_id S).

(** The exact value of a finite double, counted in units of [2^-1074],
    the distance between the smallest doubles: every finite double is a
    whole number of them. Infinities and [NaN] count as [0]. *)
Definition units (x : float) : Z :=
  match FloatOps.Prim2SF x with
  | SpecFloat.S754_finite s m e =>
      (if s then -1 else 1) * Z.pos m * 2 ^ (e + 1074)
  | _ => 0
  end.

(** The total as the specification words it: the sum of [price] over the
    slots of the list whose identifier is selected, as an exact number
    (in the same units), a missing price counting as [0]. *)
Fixpoint spec_total (S : list SlotRow) (Σ : gset string) : Z :=
  match S with
  | [] => 0
  | s :: S' =>
      (if decide (slot_id s ∈ Σ)
       then match slot_price s with Some x => units x | None => 0 end
       else 0)
      + spec_total S' Σ
  end.

End Doubles.

(** ** Runs of events and what they leave displayed *)

(** The slot list after an event, given the list shown before it: a
    slots response without error puts its rows, everything else leaves
    the list. *)
Definition applied_rows (ev : Event) (shown : list SlotRow) : list SlotRow :=
  match ev with
  | SlotsResponse _ resp =>
      match resp_error resp with
      | None => default [] (data resp)
      | Some _ => shown
      end
  | _ => shown
  end.

(** The rows of the last slots response without error among [evs], or
    [shown] when there is none. *)
Definition last_completed (evs : list Event) (shown : list SlotRow)
    : list SlotRow :=
  fold_left (fun shown ev => applied_rows ev shown) evs shown.

(** The click waits for the fetches: a row is clicked only when no slot
    fetch is in flight. *)
Definition click_waits (ev : Event) (w : World) : bool :=
  match ev with
  | ClickRow _ => (slot_fetches w =? 0)%nat
  | _ => true
  end.

(** A run each of whose events satisfies [G] in the state it happens
    in. *)
Fixpoint run_guarded (G : Event -> World -> bool) (tz : TimeZone)
    (evs : list Event) (w : World) : option World :=
  match evs with
  | [] => Some w
  | ev :: evs' =>
      if G ev w then
        match dispatch tz ev w with
        | Some w' => run_guarded G tz evs' w'
        | None => None
        end
      else None
  end.

Definition reachable_guarded (G : Event -> World -> bool) (tz : TimeZone)
    (w : World) : Prop :=
  exists props evs, run_guarded G tz evs (mount tz props) = Some w.

(** What holds when clicks wait: the selection is valid, and it is empty
    while a slot fetch is in flight. *)
Definition waiting_inv (w : World) : Prop :=
  selection_valid (ui w)
  /\ ((1 <= slot_fetches w)%nat -> selectedSlotIds (ui w) = ∅).

(** What holds of a state without a selected resource: nothing is
    selected, no slot is listed, no slot fetch is in flight. *)
Definition absent_inv (w : World) : Prop :=
  truthy_string (selectedResourceId (ui w)) = false ->
  selectedSlotIds (ui w) = ∅
  /\ slots (ui w) = []
  /\ slot_fetches w = 0%nat.

(** ** Sample data

    Venue [r1] ("Court A") of business [b1], with its sibling [r2]; two
    days, 11 and 12 November 2025, and a slot on each (times in UTC). *)
Module Sample.

Definition nov11_ms : Z := 1762871400000. (* 11 Nov 2025 14:30 *)
Definition nov12_ms : Z := 1762905600000. (* 12 Nov 2025 00:00 *)
Definition nov11 : Date := ValidDate nov11_ms.
Definition nov12 : Date := ValidDate nov12_ms.

Definition slotA : SlotRow := (* 11 Nov 09:00 - 10:00 *)
  mkSlot "a" 1762851600000 1762855200000 false (Some 40) "r1".
Definition slotB : SlotRow := (* 12 Nov 09:00 - 10:00 *)
  mkSlot "b" 1762938000000 1762941600000 false (Some 55) "r1".
Definition slotBooked : SlotRow := (* 11 Nov 10:00 - 11:00, booked *)
  mkSlot "c" 1762855200000 1762858800000 true (Some 40) "r1".
Definition slotFree : SlotRow := (* 11 Nov 11:00 - 12:00, no price *)
  mkSlot "d" 1762858800000 1762862400000 false None "r1".
Definition slotLast : SlotRow := (* 11 Nov 23:59:59.999 *)
  mkSlot "z" 1762905599999 1762909199999 false (Some 40) "r1".

Definition courtA : Resource := mkResource "r1" "Court A" "b1".
Definition siblings : list ResourceItem :=
  [mkItem "r1" "Court A"; mkItem "r2" "Court B"].

Definition props : Props := mkProps (Some "r1") (Some nov11) None None nov11.

Definition ok {A} (rows : A) : Response A := mkResponse (Some rows) None.
Definition failed {A} : Response A :=
  mkResponse None (Some (mkThrown true "Failed to fetch")).

(** A state with [slotA] selected out of a list of three. *)
Definition picked : State :=
  mkState nov11 (Some "r1") siblings (Some "r1") "Court A" false
    [slotA; slotBooked; slotFree] false None {["a"]}.

(** A fetch for 11 Nov still in flight after the date moved to 12 Nov,
    with the list of 12 Nov displayed. *)
Definition query11 : SlotQuery :=
  mkQuery (Some "r1") 1762819200000 1762905599999 true.
Definition stale : World :=
  mkWorld
    (mkState nov12 (Some "r1") siblings (Some "r1") "Court A" false
       [slotB] false None ∅)
    [AwaitSlots (Some "r1") siblings query11].

(** The resolve of [r1] about to complete after the user chose [r2]. *)
Definition overridden : World :=
  mkWorld
    (mkState nov11 (Some "r1") [] (Some "r2") "Court A" true
       [] false None ∅)
    [AwaitSiblings courtA].

(** Mount, let the resolve and both slot fetches complete, pick the first
    row. *)
Definition pick_first : list Event :=
  [ResourceResponse 0 (ok courtA); SiblingsResponse 1 (ok siblings);
   SlotsResponse 0 (ok [slotA]); SlotsResponse 0 (ok [slotA]); ClickRow 0].

(** Mount, move to 12 Nov while the fetch for 11 Nov is in flight, let
    that first fetch complete, pick its row, let the second complete. *)
Definition late_response : list Event :=
  [SelectDay (Some nov12_ms); SlotsResponse 1 (ok [slotA]); ClickRow 0;
   SlotsResponse 1 (ok [slotB])].

(** Mounted without a resource identifier anywhere. *)
Definition no_venue : Props := mkProps None (Some nov11) None None nov11.

(** Mount, let everything complete in turn, pick the first row. *)
Definition pick_in_turn : list Event :=
  [SlotsResponse 1 (ok [slotA]); ResourceResponse 0 (ok courtA);
   SiblingsResponse 0 (ok siblings); SlotsResponse 0 (ok [slotA]);
   ClickRow 0].

(** A parser that knows three timestamps. *)
Definition parse (iso : string) : Date :=
  if String.eqb iso "2025-11-11T09:30:00+00:00" then ValidDate 1762853400000
  else if String.eqb iso "2025-11-11T17:00:00+00:00" then ValidDate 1762880400000
  else if String.eqb iso "2025-11-12T00:00:00+00:00" then ValidDate 1762905600000
  else InvalidDate.

(** New York in the autumn of 2025: four hours behind UTC until the
    clocks go back on 2 November at 06:00 UTC (02:00 local), five hours
    behind after. *)
Definition new_york : TimeZone :=
  mkZone
    (fun t => if t <? 1762063200000 then -14400000 else -18000000)
    (fun t => if t <? 1762048800000 then -14400000 else -18000000).

(** A parser that knows two timestamps of 2 November 2025. *)
Definition parse_nov2 (iso : string) : Date :=
  if String.eqb iso "2025-11-02T05:30:00+00:00" then ValidDate 1762061400000
  else if String.eqb iso "2025-11-02T07:30:00+00:00" then ValidDate 1762068600000
  else InvalidDate.

(** Three slots priced 0.1, 0.2 and 0.3, as the doubles nearest to them,
    and three priced 2^53, 1 and 1. *)
Definition cents (id : string) (price : float) : Doubles.SlotRow :=
  Doubles.mkSlot id 1762851600000 1762855200000 false (Some price) "r1".


Definition fortunes : list Doubles.SlotRow :=
  [cents "a" 9007199254740992%float; cents "b" 1%float; cents "c" 1%float].

Definition all_three : gset string := {["a"]} ∪ {["b"]} ∪ {["c"]}.

(** Mounted in New York on 2 November 2025, 05:30 UTC (01:30 local,
    before the clocks go back), and the query of that day: from 04:00 UTC
    to 04:59:59.999 UTC of 3 November. *)
Definition nov2_ms : Z := 1762061400000.
Definition props_nov2 : Props :=
  mkProps (Some "r1") (Some (ValidDate nov2_ms)) None None (ValidDate nov2_ms).
Definition query_nov2 : SlotQuery :=
  mkQuery (Some "r1") 1762056000000 1762145999999 true.

(** Mount, move to 12 Nov while the fetch for 11 Nov is in flight, let
    the second fetch complete, then let the first fail. *)
Definition last_fails : list Event :=
  [SelectDay (Some nov12_ms); SlotsResponse 2 (ok [slotB]);
   SlotsResponse 1 failed].

(** Mount, move to 12 Nov while the fetch for 11 Nov is in flight, let
    the second fetch complete, then the first, then pick the row. *)
Definition out_of_order : list Event :=
  [SelectDay (Some nov12_ms); SlotsResponse 2 (ok [slotB]);
   SlotsResponse 1 (ok [slotA]); ClickRow 0].

End Sample.

(** * Properties *)

(** ** The total *)

Section Total.

Implicit Types (S : list SlotRow) (Σ : gset string) (s : SlotRow).

Lemma price_or_zero_to_number s : price_or_zero s = to_number (slot_price s).
Proof.
  unfold price_or_zero, truthy_number, to_number.
  destruct (slot_price s) as [z|]; [|reflexivity].
  destruct (Z.eqb_spec z 0); simpl; congruence.
Qed.

Lemma reduce_from (l : list SlotRow) (a : Z) :
  fold_left (fun sum s => sum + price_or_zero s) l a
  = a + fold_left (fun sum s => sum + price_or_zero s) l 0.
Proof.
  revert a. induction l as [|s l IH]; intros a; simpl; [lia|].
  rewrite IH, (IH (0 + _)). lia.
Qed.

Lemma total_nil Σ : total [] Σ = 0.
Proof. reflexivity. Qed.

Lemma total_cons s S Σ :
  total (s :: S) Σ
  = (if decide (slot_id s ∈ Σ) then price_or_zero s else 0) + total S Σ.
Proof.
  unfold total. rewrite filter_cons.
  destruct (decide (slot_id s ∈ Σ)); simpl; [|lia].
  rewrite reduce_from. lia.
Qed.

Lemma total_app S1 S2 Σ : total (S1 ++ S2) Σ = total S1 Σ + total S2 Σ.
Proof.
  induction S1 as [|s S1 IH]; simpl.
  - rewrite total_nil. lia.
  - rewrite !total_cons, IH. lia.
Qed.

Lemma total_spec_total S Σ : total S Σ = spec_total S Σ.
Proof.
  induction S as [|s S IH]; [reflexivity|].
  rewrite total_cons, IH. simpl.
  destruct (decide (slot_id s ∈ Σ)); rewrite ?price_or_zero_to_number; lia.
Qed.

Lemma total_ext S Σ Σ' :
  (forall s, s ∈ S -> slot_id s ∈ Σ <-> slot_id s ∈ Σ') ->
  total S Σ = total S Σ'.
Proof.
  induction S as [|s S IH]; intros Hagree; [reflexivity|].
  rewrite !total_cons, IH by (intros s' Hs'; apply Hagree; right; exact Hs').
  assert (Hs : slot_id s ∈ Σ <-> slot_id s ∈ Σ') by (apply Hagree; left).
  repeat case_decide; tauto || lia.
Qed.

Lemma elem_of_ids s S : s ∈ S -> slot_id s ∈ ids S.
Proof.
  unfold ids. intros H. apply elem_of_list_to_set, list_elem_of_fmap. eauto.
Qed.

(** C10. The total is defined on every slot list and selection, and a
    slot whose price is [null] or another falsy value contributes exactly
    [0]: with it or without it the total is the same number. *)
Theorem total_defined_falsy_price_zero S1 S2 s Σ :
  truthy_number (slot_price s) = false ->
  price_or_zero s = 0
  /\ total (S1 ++ s :: S2) Σ = total (S1 ++ S2) Σ
  /\ exists z : Z, total (S1 ++ s :: S2) Σ = z.
Proof.
  intros Hs.
  assert (H0 : price_or_zero s = 0).
  { unfold price_or_zero. rewrite Hs. reflexivity. }
  split; [exact H0|]. split; [|eauto].
  rewrite !total_app, total_cons, H0. case_decide; lia.
Qed.

End Total.

(** ** Toggling a slot *)

Section Toggle.

Implicit Types (slot : SlotRow) (s : State) (X : gset string).

Lemma toggle_updater_twice slot X :
  toggle_updater slot (toggle_updater slot X) = X.
Proof.
  unfold toggle_updater.
  destruct (decide (slot_id slot ∈ X)) as [Hin|Hout].
  - rewrite decide_False by (rewrite elem_of_difference, elem_of_singleton; tauto).
    apply set_eq. intros y.
    rewrite elem_of_union, elem_of_difference, elem_of_singleton.
    destruct (decide (y = slot_id slot)) as [->|]; tauto.
  - rewrite decide_True by (rewrite elem_of_union, elem_of_singleton; tauto).
    apply set_eq. intros y.
    rewrite elem_of_difference, elem_of_union, elem_of_singleton.
    destruct (decide (y = slot_id slot)) as [->|]; tauto.
Qed.

(** C6. Toggling a booked slot leaves the selection, and the whole state,
    exactly as it was, whether the slot is selected or not, and the call
    returns without throwing. *)
Theorem toggle_booked_ignored slot s :
  is_booked slot = true ->
  toggleSelect slot s = (Returned tt, s)
  /\ selectedSlotIds (snd (toggleSelect slot s)) = selectedSlotIds s.
Proof.
  intros Hb. unfold toggleSelect. rewrite Hb. split; reflexivity.
Qed.

(** C7. Toggling a slot that is not booked twice in a row gives back the
    selection, and the whole state, it started from. *)
Theorem toggle_twice_unbooked slot s :
  is_booked slot = false ->
  snd (toggleSelect slot (snd (toggleSelect slot s))) = s
  /\ selectedSlotIds (snd (toggleSelect slot (snd (toggleSelect slot s))))
     = selectedSlotIds s.
Proof.
  intros Hb. unfold toggleSelect. rewrite Hb.
  unfold modify, setSelectedSlotIds. simpl.
  rewrite toggle_updater_twice. destruct s; split; reflexivity.
Qed.

End Toggle.

(** ** What the two effects do to the state *)

Section Effects.

Variable tz : TimeZone.

Implicit Types (s : State) (w : World).

(** [loadSlots] up to its [await], case by case. *)
Lemma loadSlots_begin_absent s :
  truthy_string (selectedResourceId s) = false ->
  loadSlots_begin tz s = (Returned None, s).
Proof.
  intros H. unfold loadSlots_begin, bind, get. rewrite H. reflexivity.
Qed.

Lemma loadSlots_begin_valid s ms :
  truthy_string (selectedResourceId s) = true ->
  selectedDate s = ValidDate ms ->
  loadSlots_begin tz s =
    (Returned (Some (AwaitSlots (selectedResourceId s) (resources s)
       (mkQuery (selectedResourceId s)
          (startOfDay_ms tz ms)
          (endOfDay_ms tz ms) true))),
     setSelectedSlotIds (fun _ => ∅) (setError None (setLoadingSlots true s))).
Proof.
  intros H Hd. unfold loadSlots_begin, bind, get. rewrite H. simpl.
  unfold try_until_await, loadSlots_query, bind, lift. simpl.
  rewrite Hd. reflexivity.
Qed.

Lemma loadSlots_begin_invalid s :
  truthy_string (selectedResourceId s) = true ->
  selectedDate s = InvalidDate ->
  loadSlots_begin tz s =
    (Returned None,
     setLoadingSlots false
       (setError (Some "Invalid time value")
          (setSelectedSlotIds (fun _ => ∅)
             (setError None (setLoadingSlots true s))))).
Proof.
  intros H Hd. unfold loadSlots_begin, bind, get. rewrite H. simpl.
  unfold try_until_await, loadSlots_query, bind, lift. simpl.
  rewrite Hd. reflexivity.
Qed.

(** The three cases at once, for what the proofs below need. *)
Lemma loadSlots_begin_cases s :
  (truthy_string (selectedResourceId s) = false
   /\ loadSlots_begin tz s = (Returned None, s))
  \/ (truthy_string (selectedResourceId s) = true
      /\ exists o s', loadSlots_begin tz s = (Returned o, s')
         /\ selectedSlotIds s' = ∅ /\ slots s' = slots s
         /\ selectedResourceId s' = selectedResourceId s
         /\ selectedDate s' = selectedDate s
         /\ (match o with
             | Some p => is_AwaitSlots p = true /\ loadingSlots s' = true
                         /\ selectedDate s <> InvalidDate
             | None => selectedDate s = InvalidDate
             end)).
Proof.
  destruct (truthy_string (selectedResourceId s)) eqn:H.
  - right. split; [reflexivity|].
    destruct (selectedDate s) as [ms|] eqn:Hd.
    + rewrite (loadSlots_begin_valid s ms H Hd).
      eexists _, _. split; [reflexivity|]. simpl. rewrite Hd.
      repeat split; discriminate.
    + rewrite (loadSlots_begin_invalid s H Hd).
      eexists _, _. split; [reflexivity|]. simpl. rewrite Hd. tauto.
  - left. split; [reflexivity|]. apply loadSlots_begin_absent, H.
Qed.

(** [loadSlots] after its [await]. *)
Lemma loadSlots_resolved_ok r rs rows s :
  exists name,
    loadSlots_resolved r rs (mkResponse rows None) s =
      (Returned tt,
       setLoadingSlots false
         (setSelectedResourceName name (setSlots (default [] rows) s))).
Proof.
  unfold loadSlots_resolved, try_catch_finally, bind, modify. simpl.
  destruct (find _ rs) as [item|]; simpl.
  - exists (item_name item). reflexivity.
  - exists (selectedResourceName s). destruct s; reflexivity.
Qed.

Lemma loadSlots_resolved_failed r rs resp e s :
  resp_error resp = Some e ->
  loadSlots_resolved r rs resp s =
    (Returned tt,
     setLoadingSlots false
       (setError (Some (message_of e "Failed to load slots")) s)).
Proof.
  intros He. unfold loadSlots_resolved, try_catch_finally. rewrite He.
  reflexivity.
Qed.

End Effects.

(** ** Events that change the resource or the date, and responses *)

Section Machine.

Variable tz : TimeZone.

Implicit Types (s : State) (w : World) (ev : Event).

(** The [loadSlots] effect as a step of the component. *)
Lemma run_effect_begin w :
  let w' := run_effect (loadSlots_begin tz) w in
  (truthy_string (selectedResourceId (ui w)) = false /\ w' = w)
  \/ (truthy_string (selectedResourceId (ui w)) = true
      /\ selectedSlotIds (ui w') = ∅
      /\ slots (ui w') = slots (ui w)
      /\ selectedResourceId (ui w') = selectedResourceId (ui w)
      /\ selectedDate (ui w') = selectedDate (ui w)
      /\ ((selectedDate (ui w) = InvalidDate /\ inflight w' = inflight w)
          \/ (selectedDate (ui w) <> InvalidDate
              /\ loadingSlots (ui w') = true
              /\ exists p, is_AwaitSlots p = true
                           /\ inflight w' = (inflight w ++ [p])%list))).
Proof.
  unfold run_effect.
  destruct (loadSlots_begin_cases tz (ui w))
    as [[H E]|[H (o & s' & E & Hsel & Hsl & Hr & Hd & Ho)]]; rewrite E.
  - left. split; [exact H|]. destruct w; simpl. rewrite app_nil_r. reflexivity.
  - right. simpl. repeat (split; [assumption|]).
    destruct o as [p|].
    + right. destruct Ho as (Hp & Hl & Hv). eauto 6.
    + left. rewrite app_nil_r. tauto.
Qed.

(** C5, as the code has it. When a slot fetch fails, the slot list stays
    at its previous value; the failure becomes the displayed message, the
    loading flag is cleared, and the handler returns without throwing. *)
Theorem failed_fetch_keeps_slots w k r rs q resp e w' :
  inflight w !! k = Some (AwaitSlots r rs q) ->
  resp_error resp = Some e ->
  dispatch tz (SlotsResponse k resp) w = Some w' ->
  slots (ui w') = slots (ui w)
  /\ error (ui w') = Some (message_of e "Failed to load slots")
  /\ loadingSlots (ui w') = false
  /\ fst (loadSlots_resolved r rs resp (ui w)) = Returned tt.
Proof.
  intros Hk He Hstep. unfold dispatch in Hstep. rewrite Hk in Hstep.
  injection Hstep as <-. unfold run_handler. simpl.
  rewrite (loadSlots_resolved_failed r rs resp e _ He).
  repeat split.
Qed.

Lemma loadResources_siblings_ok initialRes rows s :
  loadResources_siblings initialRes (mkResponse rows None) s =
    (Returned tt,
     setLoadingResources false
       (setSelectedResourceId
          (fun prev => or_string prev (Some (res_id initialRes)))
          (setResources (default [] rows) s))).
Proof. reflexivity. Qed.

(** C9. After a successful resolve of the starting resource, a selected
    resource that is already set is kept as it is; only when none is set
    does the selected resource become the starting resource. *)
Theorem resolve_keeps_selected_resource w k initialRes rows w' :
  inflight w !! k = Some (AwaitSiblings initialRes) ->
  dispatch tz (SiblingsResponse k (mkResponse rows None)) w = Some w' ->
  selectedResourceId (ui w') =
    if truthy_string (selectedResourceId (ui w))
    then selectedResourceId (ui w)
    else Some (res_id initialRes).
Proof.
  intros Hk Hstep. unfold dispatch in Hstep. rewrite Hk in Hstep.
  simpl in Hstep. injection Hstep as <-.
  match goal with |- context [run_effect _ ?w1] =>
    destruct (run_effect_begin w1) as [[_ ->]|(_ & _ & _ & -> & _)]
  end; reflexivity.
Qed.

End Machine.

(** ** The invariant of the selection *)

Section Invariant.

Variable tz : TimeZone.

Implicit Types (s : State) (w : World) (ev : Event) (l : list Pending).

Lemma count_slots_app l1 l2 :
  count_slots (l1 ++ l2) = (count_slots l1 + count_slots l2)%nat.
Proof. unfold count_slots. rewrite filter_app, length_app. reflexivity. Qed.

Lemma count_slots_cons p l :
  count_slots (p :: l)
  = ((if is_AwaitSlots p then 1 else 0) + count_slots l)%nat.
Proof.
  unfold count_slots. rewrite filter_cons.
  destruct (is_AwaitSlots p); case_decide; simpl; congruence.
Qed.

Lemma count_slots_delete l k p :
  l !! k = Some p ->
  count_slots l
  = ((if is_AwaitSlots p then 1 else 0) + count_slots (delete k l))%nat.
Proof.
  revert k. induction l as [|p' l IH]; intros [|k] Hk; try discriminate.
  - injection Hk as ->. simpl. apply count_slots_cons.
  - simpl in Hk. simpl. rewrite !count_slots_cons, (IH k Hk). lia.
Qed.

Lemma selection_valid_empty s : selectedSlotIds s = ∅ -> selection_valid s.
Proof.
  intros He x Hx. rewrite He in Hx. apply not_elem_of_empty in Hx.
  contradiction.
Qed.

Lemma inv_same_ledger w w' :
  same_ledger (ui w) (ui w') ->
  slot_fetches w' = slot_fetches w ->
  inv w -> inv w'.
Proof.
  intros (Hsl & Hsel & Hl & Hd) Hn (Hv & Hf & Hi).
  unfold inv, selection_valid. rewrite Hn, Hsl, Hsel, Hl, Hd. auto.
Qed.

Lemma inv_begin w : inv w -> inv (run_effect (loadSlots_begin tz) w).
Proof.
  intros (Hv & Hf & Hi).
  destruct (run_effect_begin tz w)
    as [[_ ->]|(_ & Hsel & Hsl & _ & Hd & Hcase)]; [split; auto|].
  split; [apply selection_valid_empty, Hsel|].
  unfold slot_fetches in *.
  destruct Hcase as [[Hinv ->]|(Hval & Hl & p & Hp & ->)].
  - rewrite (Hi Hinv). split; [lia|auto].
  - split; [auto|]. rewrite Hd. contradiction.
Qed.

Lemma toggleSelect_ledger slot s :
  slot ∈ slots s ->
  selection_valid s ->
  let s' := snd (toggleSelect slot s) in
  selection_valid s' /\ slots s' = slots s
  /\ loadingSlots s' = loadingSlots s /\ selectedDate s' = selectedDate s.
Proof.
  intros Hin Hv. unfold toggleSelect.
  destruct (is_booked slot) eqn:Hb; simpl; [auto|].
  split; [|auto]. intros x Hx. simpl in Hx. unfold toggle_updater in Hx.
  destruct (decide (slot_id slot ∈ selectedSlotIds s)).
  - apply elem_of_difference in Hx as [Hx _]. apply Hv, Hx.
  - apply elem_of_union in Hx as [Hx|Hx]; [apply Hv, Hx|].
    apply elem_of_singleton in Hx as ->. exists slot. auto.
Qed.

Lemma loadSlots_resolved_ledger r rs resp s :
  exists s', loadSlots_resolved r rs resp s = (Returned tt, s')
    /\ selectedSlotIds s' = selectedSlotIds s
    /\ selectedDate s' = selectedDate s.
Proof.
  destruct resp as [rows [e|]].
  - rewrite (loadSlots_resolved_failed r rs (mkResponse rows (Some e)) e s eq_refl).
    eauto.
  - destruct (loadSlots_resolved_ok r rs rows s) as [name ->]. eauto.
Qed.

Lemma loadResources_resolved_ledger resp s :
  exists o s', loadResources_resolved resp s = (Returned o, s')
    /\ same_ledger s s'
    /\ match o with Some p => is_AwaitSlots p = false | None => True end.
Proof.
  unfold loadResources_resolved, try_until_await.
  destruct resp as [[initialRes|] [e|]]; simpl;
    eexists _, _; (split; [reflexivity|]); unfold same_ledger; simpl; auto.
Qed.

Lemma loadResources_siblings_ledger initialRes resp s :
  exists s', loadResources_siblings initialRes resp s = (Returned tt, s')
    /\ same_ledger s s'.
Proof.
  unfold loadResources_siblings, try_catch_finally.
  destruct resp as [rows [e|]]; simpl;
    eexists; (split; [reflexivity|]); unfold same_ledger; simpl; auto.
Qed.

Lemma loadResources_begin_ledger s :
  exists o s', loadResources_begin s = (Returned o, s')
    /\ same_ledger s s'
    /\ match o with Some p => is_AwaitSlots p = false | None => True end.
Proof.
  unfold loadResources_begin, bind, get.
  destruct (truthy_string (initialResourceId s)); simpl;
    eexists _, _; (split; [reflexivity|]); unfold same_ledger; simpl; auto.
Qed.

Lemma inv_mount props : inv (mount tz props).
Proof.
  unfold mount. apply inv_begin.
  unfold run_effect. cbn [ui inflight].
  destruct (loadResources_begin_ledger (init_state props))
    as (o & s' & -> & (Hsl & Hsel & Hl & Hd) & Ho).
  unfold inv, selection_valid, slot_fetches. simpl.
  rewrite Hsl, Hsel, Hl. simpl.
  assert (Hc : count_slots match o with Some p => [p] | None => [] end = 0%nat).
  { destruct o as [p|]; [|reflexivity].
    rewrite count_slots_cons, Ho. reflexivity. }
  rewrite Hc. split; [|split; [lia|auto]].
  intros x Hx. apply not_elem_of_empty in Hx. contradiction.
Qed.

Lemma inv_step w ev w' :
  inv w -> no_overlap w = true -> dispatch tz ev w = Some w' -> inv w'.
Proof.
  intros Hinv Hno Hstep.
  apply bool_decide_eq_true in Hno.
  destruct ev as [value|[ms|]|idx|k resp|k resp|k resp]; simpl in Hstep.
  - (* venue *)
    destruct (loadingResources (ui w)); [discriminate|].
      destruct (listed_venue value (ui w)) eqn:Hlisted;
        [simpl in Hstep|discriminate].
    destruct (decide (selectedResourceId (ui w) = Some value));
      injection Hstep as <-; [exact Hinv|].
    apply inv_begin. revert Hinv. apply inv_same_ledger; [|reflexivity].
    unfold same_ledger. simpl. auto.
  - (* day *)
    injection Hstep as <-. apply inv_begin.
    destruct Hinv as (Hv & Hf & Hi). split; [exact Hv|].
    split; [exact Hf|]. simpl. discriminate.
  - injection Hstep as <-. exact Hinv.
  - (* click *)
    destruct (loadingSlots (ui w)) eqn:Hl; [discriminate|].
    destruct (slots (ui w) !! idx) as [slot|] eqn:Hidx; [|discriminate].
    injection Hstep as <-.
    destruct Hinv as (Hv & Hf & Hi).
    destruct (toggleSelect_ledger slot (ui w)) as (Hv' & Hsl & Hl' & Hd).
    { apply list_elem_of_lookup. eauto. }
    { exact Hv. }
    unfold inv, run_handler, slot_fetches. simpl.
    split; [exact Hv'|]. rewrite Hl', Hd, Hl.
    split; [|exact Hi].
    intros Hone. destruct (Hf Hone) as [Hc _]. congruence.
  - (* slots response *)
    destruct (inflight w !! k) as [[r rs q| |]|] eqn:Hk; try discriminate.
    injection Hstep as <-.
    destruct Hinv as (Hv & Hf & Hi).
    pose proof (count_slots_delete _ _ _ Hk) as Hcount. simpl in Hcount.
    unfold slot_fetches in Hno, Hf.
    destruct (Hf ltac:(lia)) as [_ Hempty].
    destruct (loadSlots_resolved_ledger r rs resp (ui w))
      as (s' & E & Hsel & Hd).
    unfold inv, run_handler, slot_fetches. simpl. rewrite E. simpl.
    assert (Hz : count_slots (delete k (inflight w)) = 0%nat) by lia.
    rewrite Hz. split; [|split; [lia|auto]].
    apply selection_valid_empty. congruence.
  - (* resource response *)
    destruct (inflight w !! k) as [[| |]|] eqn:Hk; try discriminate.
    injection Hstep as <-.
    pose proof (count_slots_delete _ _ _ Hk) as Hcount. simpl in Hcount.
    unfold run_effect. simpl.
    destruct (loadResources_resolved_ledger resp (ui w))
      as (o & s' & -> & Hled & Ho).
    revert Hinv. apply inv_same_ledger; [exact Hled|].
    unfold slot_fetches. simpl.
    rewrite count_slots_app, Hcount.
    destruct o as [p|]; [rewrite count_slots_cons, Ho|]; simpl;
      unfold count_slots; simpl; lia.
  - (* siblings response *)
    destruct (inflight w !! k) as [[| |initialRes]|] eqn:Hk; try discriminate.
    pose proof (count_slots_delete _ _ _ Hk) as Hcount. simpl in Hcount.
    destruct (loadResources_siblings_ledger initialRes resp (ui w))
      as (s' & E & Hled).
    assert (Hw1 : inv (run_handler (loadResources_siblings initialRes resp)
                         (settle k w))).
    { revert Hinv. apply inv_same_ledger.
      - unfold run_handler. simpl. rewrite E. exact Hled.
      - unfold slot_fetches. simpl. lia. }
    destruct (resp_error resp); injection Hstep as <-;
      [exact Hw1|apply inv_begin, Hw1].
Qed.

Lemma run_within_inv evs : forall w w',
  inv w -> run_within no_overlap tz evs w = Some w' -> inv w'.
Proof.
  induction evs as [|ev evs IH]; intros w w' Hinv Hrun; simpl in Hrun;
    destruct (no_overlap w) eqn:Hno; try discriminate.
  - injection Hrun as <-. exact Hinv.
  - destruct (dispatch tz ev w) as [w1|] eqn:Hstep; [|discriminate].
    apply (IH w1); [|exact Hrun]. apply (inv_step w ev); assumption.
Qed.

End Invariant.

(** ** The requested interval *)

Section Interval.

Variable tz : TimeZone.

(** What [loadSlots] asks for: the rows of the resource that start from
    what [startOfDay] gives for the date up to, and without, the instant
    [endOfDay] gives, which is the last millisecond of the day; in
    ascending order. *)
Lemma loadSlots_requests s ms row :
  truthy_string (selectedResourceId s) = true ->
  selectedDate s = ValidDate ms ->
  exists q,
    fst (loadSlots_begin tz s)
      = Returned (Some (AwaitSlots (selectedResourceId s) (resources s) q))
    /\ q_order_ascending q = true
    /\ query_selects q row
       = bool_decide (selectedResourceId s = Some (resource_id row))
         && (startOfDay_ms tz ms <=? start_time row)
         && (start_time row <? endOfDay_ms tz ms).
Proof.
  intros H Hd. rewrite (loadSlots_begin_valid tz s ms H Hd).
  eexists. split; [reflexivity|]. split; reflexivity.
Qed.

End Interval.

(** ** The properties on the sample data *)

Section OnSample.

Import Sample.

Lemma singleton_nonempty (x : string) : ({[x]} : gset string) <> ∅.
Proof.
  intros H. apply (not_elem_of_empty (C := gset string) x).
  rewrite <- H. apply elem_of_singleton. reflexivity.
Qed.

(** C4. On 11 November [loadSlots] asks for the slots of [r1] that start
    in the interval from 00:00:00.000 to 23:59:59.999, the end left out,
    in ascending order. A slot that starts at 23:59:59.999 lies in the
    day, before the next midnight, and the request leaves it out. *)
Theorem last_instant_of_day_not_requested :
  fst (loadSlots_begin utc picked)
    = Returned (Some (AwaitSlots (Some "r1") siblings query11))
  /\ resource_id slotLast = "r1"
  /\ in_day utc nov11 (start_time slotLast) = true
  /\ query_selects query11 slotLast = false
  /\ query_selects query11 slotA = true.
Proof. repeat split; vm_compute; reflexivity. Qed.

Lemma total_defined_falsy_price_zero_sample :
  truthy_number (slot_price slotFree) = false
  /\ total ([slotA; slotBooked] ++ slotFree :: [slotB]) ({["a"]} ∪ {["d"]})
     = total ([slotA; slotBooked] ++ [slotB]) ({["a"]} ∪ {["d"]}).
Proof.
  split; [reflexivity|].
  apply (total_defined_falsy_price_zero [slotA; slotBooked] [slotB] slotFree).
  reflexivity.
Defined.

Lemma toggle_booked_ignored_sample :
  is_booked slotBooked = true
  /\ toggleSelect slotBooked picked = (Returned tt, picked).
Proof.
  split; [reflexivity|].
  apply (toggle_booked_ignored slotBooked picked). reflexivity.
Defined.

Lemma toggle_twice_unbooked_sample :
  is_booked slotA = false
  /\ snd (toggleSelect slotA (snd (toggleSelect slotA picked))) = picked.
Proof.
  split; [reflexivity|].
  apply (toggle_twice_unbooked slotA picked). reflexivity.
Defined.

Lemma failed_fetch_keeps_slots_sample :
  exists w', dispatch utc (SlotsResponse 0 failed) stale = Some w'
             /\ slots (ui w') = [slotB]
             /\ error (ui w') = Some "Failed to fetch".
Proof.
  eexists. split; [vm_compute; reflexivity|].
  edestruct (failed_fetch_keeps_slots utc stale 0 (Some "r1") siblings query11
               failed (mkThrown true "Failed to fetch"))
    as (Hsl & Herr & _).
  - reflexivity.
  - reflexivity.
  - vm_compute. reflexivity.
  - split; [exact Hsl|exact Herr].
Defined.

Lemma resolve_keeps_selected_resource_sample :
  exists w', dispatch utc (SiblingsResponse 0 (ok siblings)) overridden = Some w'
             /\ selectedResourceId (ui w') = Some "r2".
Proof.
  eexists. split; [vm_compute; reflexivity|].
  apply (resolve_keeps_selected_resource utc overridden 0 courtA (Some siblings));
    vm_compute; reflexivity.
Defined.

(** C3 as stated fails: the date moves from 11 to 12 November while the
    fetch for 11 November is in flight; the fetch for 12 November
    completes first and is displayed, then the one for 11 November
    completes, its key no longer the current one, and its rows replace
    the list. *)
Lemma earlier_fetch_overwrites_later :
  exists w0 w1 w2 query12,
    run utc [SelectDay (Some nov12_ms)] (mount utc props) = Some w0
    /\ inflight w0 = [AwaitResource (Some "r1");
                      AwaitSlots (Some "r1") [] query11;
                      AwaitSlots (Some "r1") [] query12]
    /\ query_selects query11 slotA = true
    /\ query_selects query12 slotB = true
    /\ dispatch utc (SlotsResponse 2 (ok [slotB])) w0 = Some w1
    /\ slots (ui w1) = [slotB]
    /\ key_is_current utc query12 (ui w1) = true
    /\ key_is_current utc query11 (ui w1) = false
    /\ dispatch utc (SlotsResponse 1 (ok [slotA])) w1 = Some w2
    /\ slots (ui w2) = [slotA]
    /\ selectedDate (ui w2) = nov12
    /\ slot_fetches w2 = 0%nat.
Proof.
  eexists _, _, _, _. split; [vm_compute; reflexivity|].
  repeat split; vm_compute; reflexivity.
Qed.

(** C5 as stated fails: the slots of 11 November are displayed, the date
    moves to 12 November and that fetch fails; the list still holds the
    slots of 11 November. *)
Lemma failed_fetch_leaves_previous_slots :
  exists w w',
    run utc [SlotsResponse 1 (ok [slotA]); SelectDay (Some nov12_ms)]
      (mount utc props) = Some w
    /\ dispatch utc (SlotsResponse 1 failed) w = Some w'
    /\ slots (ui w') = [slotA]
    /\ slots (ui w') <> []
    /\ error (ui w') = Some "Failed to fetch".
Proof.
  eexists _, _. split; [vm_compute; reflexivity|].
  split; [vm_compute; reflexivity|].
  repeat split; try (vm_compute; reflexivity).
  vm_compute. discriminate.
Qed.

(** C8 as stated fails: with the fetches for 11 and 12 November both in
    flight, the first completes and its row is picked, then the second
    completes; the selection holds a slot that the list no longer has. *)
Lemma selection_outlives_slots :
  exists w,
    run utc late_response (mount utc props) = Some w
    /\ reachable utc w
    /\ slots (ui w) = [slotB]
    /\ "a" ∈ selectedSlotIds (ui w)
    /\ ~ selection_valid (ui w).
Proof.
  eexists. split; [vm_compute; reflexivity|].
  split; [exists props, late_response; vm_compute; reflexivity|].
  split; [reflexivity|].
  assert (E : forall X : gset string, X = {["a"]} -> "a" ∈ X).
  { intros X ->. apply elem_of_singleton. reflexivity. }
  match goal with
  | |- ?A /\ _ => assert (Hin : A) by (apply E; vm_compute; reflexivity)
  end.
  split; [exact Hin|].
  intros Hv. destruct (Hv "a" Hin) as (slot & Hslot & Hid & _).
  simpl in Hslot. apply list_elem_of_singleton in Hslot. subst slot.
  discriminate Hid.
Qed.

End OnSample.

(** * Further properties of the component *)

(** ** More on the total *)

Section TotalMore.

Implicit Types (S : list SlotRow) (Σ : gset string) (s slot : SlotRow).

(** X1. When no price is negative, the total is never negative and a
    larger selection never gives a smaller total. *)
Theorem total_nonnegative_monotone S Σ Σ' :
  (forall s, s ∈ S -> 0 <= to_number (slot_price s)) ->
  Σ ⊆ Σ' ->
  0 <= total S Σ <= total S Σ'.
Proof.
  intros Hpos Hsub. induction S as [|s S IH]; [rewrite !total_nil; lia|].
  rewrite !total_cons.
  assert (Hs : 0 <= price_or_zero s)
    by (rewrite price_or_zero_to_number; apply Hpos; left).
  assert (IH' : 0 <= total S Σ <= total S Σ')
    by (apply IH; intros s' Hs'; apply Hpos; right; exact Hs').
  destruct (decide (slot_id s ∈ Σ)) as [Hin|Hout].
  - rewrite decide_True by (apply Hsub, Hin). lia.
  - destruct (decide (slot_id s ∈ Σ')); lia.
Qed.

End TotalMore.

(** ** More on toggling *)

Section ToggleMore.

Implicit Types (slot : SlotRow) (s : State) (X : gset string).

Lemma elem_of_toggle_updater slot X y :
  y ∈ toggle_updater slot X
  <-> (y ∈ X /\ y <> slot_id slot) \/ ((y ∉ X) /\ y = slot_id slot).
Proof.
  unfold toggle_updater.
  destruct (decide (slot_id slot ∈ X)) as [Hin|Hout].
  - rewrite elem_of_difference, elem_of_singleton.
    destruct (decide (y = slot_id slot)) as [->|]; tauto.
  - rewrite elem_of_union, elem_of_singleton.
    destruct (decide (y = slot_id slot)) as [->|]; tauto.
Qed.

(** X4. Clicking a row that is not booked flips the membership of its
    identifier and of no other, and changes nothing else in the state. *)
Theorem toggle_flips_only_clicked slot s :
  is_booked slot = false ->
  let s' := snd (toggleSelect slot s) in
  (slot_id slot ∈ selectedSlotIds s' <-> slot_id slot ∉ selectedSlotIds s)
  /\ (forall y, y <> slot_id slot ->
        (y ∈ selectedSlotIds s' <-> y ∈ selectedSlotIds s))
  /\ setSelectedSlotIds (fun _ => selectedSlotIds s) s' = s.
Proof.
  intros Hb. unfold toggleSelect. rewrite Hb. simpl.
  split; [|split].
  - rewrite elem_of_toggle_updater. tauto.
  - intros y Hy. rewrite elem_of_toggle_updater. tauto.
  - destruct s; reflexivity.
Qed.

(** X5. Clicks commute: two rows clicked in either order leave the same
    state, booked or not, same identifier or not. *)
Theorem toggles_commute slot1 slot2 s :
  snd (toggleSelect slot1 (snd (toggleSelect slot2 s)))
  = snd (toggleSelect slot2 (snd (toggleSelect slot1 s))).
Proof.
  unfold toggleSelect.
  destruct (is_booked slot1) eqn:H1, (is_booked slot2) eqn:H2; simpl;
    rewrite ?H1, ?H2; simpl; try reflexivity.
  unfold setSelectedSlotIds. simpl. f_equal.
  apply set_eq. intros y. rewrite !elem_of_toggle_updater.
  destruct (decide (y = slot_id slot1)), (decide (y = slot_id slot2)); tauto.
Qed.

(** X6. Clicking a row that is not booked changes the number of selected
    identifiers by exactly one; after selecting a row that was not
    selected the BOOK NOW button is enabled. *)
Theorem toggle_changes_size_by_one slot s :
  is_booked slot = false ->
  let s' := snd (toggleSelect slot s) in
  if decide (slot_id slot ∈ selectedSlotIds s)
  then S (size (selectedSlotIds s')) = size (selectedSlotIds s)
  else size (selectedSlotIds s') = S (size (selectedSlotIds s))
       /\ book_disabled s' = false.
Proof.
  intros Hb. unfold toggleSelect. rewrite Hb. simpl.
  unfold book_disabled, toggle_updater. simpl.
  destruct (decide (slot_id slot ∈ selectedSlotIds s)) as [Hin|Hout].
  - rewrite size_difference by (apply singleton_subseteq_l, Hin).
    rewrite size_singleton.
    assert (size (selectedSlotIds s) <> 0%nat).
    { intros Hz. apply size_empty_inv in Hz.
      apply (not_elem_of_empty (C := gset string) (slot_id slot)).
      rewrite <- Hz. exact Hin. }
    lia.
  - rewrite size_union by (apply disjoint_singleton_r, Hout).
    rewrite size_singleton.
    split; [lia|]. apply Nat.eqb_neq. lia.
Qed.

End ToggleMore.

(** ** The loading flags and the requests in flight *)

Section MachineMore.

Variable tz : TimeZone.

Implicit Types (s : State) (w : World) (ev : Event) (l : list Pending).

Lemma reachable_invariant (P : World -> Prop) :
  (forall props, P (mount tz props)) ->
  (forall w ev w', P w -> dispatch tz ev w = Some w' -> P w') ->
  forall w, reachable tz w -> P w.
Proof.
  intros Hmount Hstep w (props & evs & Hrun).
  revert Hrun. generalize (Hmount props). generalize (mount tz props).
  induction evs as [|ev evs IH]; intros w0 H0 Hrun; simpl in Hrun.
  - injection Hrun as <-. exact H0.
  - destruct (dispatch tz ev w0) as [w1|] eqn:Hd; [|discriminate].
    apply (IH w1); [apply (Hstep w0 ev), Hd; exact H0|exact Hrun].
Qed.

Lemma reachable_within_reachable P w :
  reachable_within P tz w -> reachable tz w.
Proof.
  intros (props & evs & Hrun). exists props, evs.
  revert Hrun. generalize (mount tz props).
  induction evs as [|ev evs IH]; intros w0 Hrun; simpl in Hrun;
    destruct (P w0); try discriminate; simpl.
  - exact Hrun.
  - destruct (dispatch tz ev w0) as [w1|]; [apply IH, Hrun|discriminate].
Qed.

Lemma run_effect_begin_world w :
  run_effect (loadSlots_begin tz) w =
    if truthy_string (selectedResourceId (ui w)) then
      match selectedDate (ui w) with
      | ValidDate ms =>
          mkWorld
            (setSelectedSlotIds (fun _ => ∅)
               (setError None (setLoadingSlots true (ui w))))
            (inflight w ++
             [AwaitSlots (selectedResourceId (ui w)) (resources (ui w))
                (mkQuery (selectedResourceId (ui w))
                   (startOfDay_ms tz ms)
                   (endOfDay_ms tz ms) true)])
      | InvalidDate =>
          mkWorld
            (setLoadingSlots false
               (setError (Some "Invalid time value")
                  (setSelectedSlotIds (fun _ => ∅)
                     (setError None (setLoadingSlots true (ui w))))))
            (inflight w)
      end
    else w.
Proof.
  unfold run_effect.
  destruct (truthy_string (selectedResourceId (ui w))) eqn:H.
  - destruct (selectedDate (ui w)) as [ms|] eqn:Hd.
    + rewrite (loadSlots_begin_valid tz _ ms H Hd). reflexivity.
    + rewrite (loadSlots_begin_invalid tz _ H Hd). rewrite app_nil_r.
      reflexivity.
  - rewrite (loadSlots_begin_absent tz _ H). rewrite app_nil_r.
    destruct w; reflexivity.
Qed.

Lemma count_resolve_app l1 l2 :
  count_resolve (l1 ++ l2) = (count_resolve l1 + count_resolve l2)%nat.
Proof. unfold count_resolve. rewrite filter_app, length_app. reflexivity. Qed.

Lemma count_resolve_cons p l :
  count_resolve (p :: l)
  = ((if is_resolve p then 1 else 0) + count_resolve l)%nat.
Proof.
  unfold count_resolve. rewrite filter_cons.
  destruct (is_resolve p); case_decide; simpl; congruence.
Qed.

Lemma count_resolve_delete l k p :
  l !! k = Some p ->
  count_resolve l
  = ((if is_resolve p then 1 else 0) + count_resolve (delete k l))%nat.
Proof.
  revert k. induction l as [|p' l IH]; intros [|k] Hk; try discriminate.
  - injection Hk as ->. simpl. apply count_resolve_cons.
  - simpl in Hk. simpl. rewrite !count_resolve_cons, (IH k Hk). lia.
Qed.

Lemma machine_inv_begin w :
  machine_inv tz w -> machine_inv tz (run_effect (loadSlots_begin tz) w).
Proof.
  intros Hinv. rewrite run_effect_begin_world.
  destruct (truthy_string (selectedResourceId (ui w))) eqn:Hr;
    [|exact Hinv].
  destruct Hinv as (H1 & H2 & H3 & H4 & H5).
  destruct (selectedDate (ui w)) as [ms|];
    unfold machine_inv, slot_fetches, resolve_requests in *; simpl.
  - rewrite count_slots_app, count_resolve_app, count_slots_cons,
      count_resolve_cons. simpl. rewrite !Nat.add_0_r.
    split; [lia|]. split; [exact H2|]. split; [exact H3|].
    split; [exact H4|].
    intros r rs q Hin. apply elem_of_app in Hin as [Hin|Hin]; [eauto|].
    apply list_elem_of_singleton in Hin. injection Hin as -> -> ->.
    unfold day_query. simpl.
    split; [exact Hr|]. split; [reflexivity|]. split; [reflexivity|].
    exists ms. split; reflexivity.
  - split; [discriminate|]. tauto.
Qed.

Lemma machine_inv_mount props : machine_inv tz (mount tz props).
Proof.
  unfold mount. apply machine_inv_begin.
  unfold run_effect, loadResources_begin, bind, get. cbn [ui inflight].
  unfold machine_inv, slot_fetches, resolve_requests.
  destruct (truthy_string (initialResourceId (init_state props))) eqn:Hi;
    simpl in Hi |- *.
  - rewrite Hi, count_resolve_cons, count_slots_cons. simpl.
    change (count_resolve []) with 0%nat. change (count_slots []) with 0%nat.
    refine (conj _ (conj _ (conj _ (conj _ _))));
      try solve [discriminate | lia
                | split; intros; (reflexivity || lia || discriminate)].
    intros r rs q Hin. apply list_elem_of_singleton in Hin. discriminate.
  - change (count_resolve []) with 0%nat. change (count_slots []) with 0%nat.
    refine (conj _ (conj _ (conj _ (conj _ _))));
      try solve [discriminate | lia
                | split; intros; (reflexivity || lia || discriminate)].
    intros r rs q Hin. apply elem_of_nil in Hin. contradiction.
Qed.

Lemma count_slots_nil : count_slots [] = 0%nat.
Proof. reflexivity. Qed.

Lemma count_resolve_nil : count_resolve [] = 0%nat.
Proof. reflexivity. Qed.

Ltac count_norm :=
  rewrite ?count_slots_app, ?count_resolve_app, ?count_slots_cons,
    ?count_resolve_cons, ?count_slots_nil, ?count_resolve_nil;
  cbn [is_AwaitSlots is_resolve]; rewrite ?Nat.add_0_r.

(** The first response of [loadResources] as a step. *)
Lemma loadResources_resolved_world resp w :
  run_effect (loadResources_resolved resp) w =
    match resp_error resp, data resp with
    | Some e, _ =>
        mkWorld
          (setLoadingResources false
             (setError (Some (message_of e "Failed to load resources")) (ui w)))
          (inflight w)
    | None, None =>
        mkWorld
          (setLoadingResources false
             (setError (Some "Resource not found") (ui w)))
          (inflight w)
    | None, Some initialRes =>
        mkWorld (setSelectedResourceName (res_name initialRes) (ui w))
          (inflight w ++ [AwaitSiblings initialRes])
    end.
Proof.
  unfold run_effect, loadResources_resolved, try_until_await.
  destruct resp as [[initialRes|] [e|]]; simpl; rewrite ?app_nil_r;
    reflexivity.
Qed.

(** The second response of [loadResources] as a step, before the effect
    it triggers. *)
Lemma loadResources_siblings_world initialRes resp w :
  run_handler (loadResources_siblings initialRes resp) w =
    match resp_error resp with
    | Some e =>
        mkWorld
          (setLoadingResources false
             (setError (Some (message_of e "Failed to load resources")) (ui w)))
          (inflight w)
    | None =>
        mkWorld
          (setLoadingResources false
             (setSelectedResourceId
                (fun prev => or_string prev (Some (res_id initialRes)))
                (setResources (default [] (data resp)) (ui w))))
          (inflight w)
    end.
Proof.
  unfold run_handler, loadResources_siblings, try_catch_finally.
  destruct resp as [rows [e|]]; reflexivity.
Qed.

(** A slots response as a step. *)
Lemma loadSlots_resolved_world r rs resp w :
  exists name,
    run_handler (loadSlots_resolved r rs resp) w =
      match resp_error resp with
      | Some e =>
          mkWorld
            (setLoadingSlots false
               (setError (Some (message_of e "Failed to load slots")) (ui w)))
            (inflight w)
      | None =>
          mkWorld
            (setLoadingSlots false
               (setSelectedResourceName name
                  (setSlots (default [] (data resp)) (ui w))))
            (inflight w)
      end
    /\ name = match find (fun x => bool_decide (Some (item_id x) = r)) rs with
              | Some item => item_name item
              | None => selectedResourceName (ui w)
              end.
Proof.
  unfold run_handler, loadSlots_resolved, try_catch_finally.
  destruct resp as [rows [e|]]; simpl.
  - eexists. split; reflexivity.
  - unfold bind, modify. simpl.
    destruct (find _ rs) as [item|]; simpl; eexists; split; reflexivity.
Qed.

Lemma machine_inv_step w ev w' :
  machine_inv tz w -> dispatch tz ev w = Some w' -> machine_inv tz w'.
Proof.
  intros Hinv Hstep.
  destruct ev as [value|[ms|]|idx|k resp|k resp|k resp]; simpl in Hstep.
  - destruct (loadingResources (ui w)); [discriminate|].
      destruct (listed_venue value (ui w)) eqn:Hlisted;
        [simpl in Hstep|discriminate].
    destruct (decide (selectedResourceId (ui w) = Some value));
      injection Hstep as <-; [exact Hinv|].
    apply machine_inv_begin. exact Hinv.
  - injection Hstep as <-. apply machine_inv_begin. exact Hinv.
  - injection Hstep as <-. exact Hinv.
  - destruct (loadingSlots (ui w)) eqn:Hl; [discriminate|].
    destruct (slots (ui w) !! idx) as [slot|]; [|discriminate].
    injection Hstep as <-. unfold toggleSelect.
    destruct (is_booked slot); [destruct w; exact Hinv|].
    exact Hinv.
  - destruct (inflight w !! k) as [[r rs q| |]|] eqn:Hk; try discriminate.
    injection Hstep as <-.
    destruct Hinv as (H1 & H2 & H3 & H4 & H5).
    pose proof (count_resolve_delete _ _ _ Hk) as Hc. simpl in Hc.
    destruct (loadSlots_resolved_world r rs resp (settle k w))
      as (name & -> & _).
    unfold machine_inv, slot_fetches, resolve_requests in *.
    destruct (resp_error resp); cbn [ui inflight settle];
      rewrite <- Hc; simpl;
      (split; [discriminate|]); (split; [exact H2|]);
      (split; [exact H3|]); (split; [exact H4|]);
      intros r' rs' q' Hin; apply list_elem_of_delete_inv in Hin; eauto.
  - destruct (inflight w !! k) as [[|r|]|] eqn:Hk; try discriminate.
    injection Hstep as <-.
    destruct Hinv as (H1 & H2 & H3 & H4 & H5).
    pose proof (count_resolve_delete _ _ _ Hk) as Hc. simpl in Hc.
    pose proof (count_slots_delete _ _ _ Hk) as Hs. simpl in Hs.
    unfold machine_inv, slot_fetches, resolve_requests in *.
    assert (Hone : count_resolve (inflight w) = 1%nat) by lia.
    assert (Hload : loadingResources (ui w) = true) by (apply H3, Hone).
    assert (Hinit : truthy_string (initialResourceId (ui w)) = true).
    { destruct (truthy_string (initialResourceId (ui w))); [reflexivity|].
      destruct H4 as [_ H4]; [reflexivity|]. lia. }
    rewrite loadResources_resolved_world.
    destruct (resp_error resp) as [e|]; [|destruct (data resp) as [res|]];
      cbn [ui inflight settle]; simpl; count_norm;
      rewrite ?Hinit, <- ?Hs, ?Hload;
      (split; [exact H1|]); (split; [lia|]);
      (split; [split; intros; (discriminate || lia || reflexivity)|]);
      (split; [discriminate|]);
      intros r' rs' q' Hin;
      try (apply elem_of_app in Hin as [Hin|Hin];
           [|apply list_elem_of_singleton in Hin; discriminate]);
      apply list_elem_of_delete_inv in Hin; eauto.
  - destruct (inflight w !! k) as [[| |initialRes]|] eqn:Hk; try discriminate.
    destruct Hinv as (H1 & H2 & H3 & H4 & H5).
    pose proof (count_resolve_delete _ _ _ Hk) as Hc. simpl in Hc.
    pose proof (count_slots_delete _ _ _ Hk) as Hs. simpl in Hs.
    assert (Hinit : truthy_string (initialResourceId (ui w)) = true).
    { destruct (truthy_string (initialResourceId (ui w))); [reflexivity|].
      destruct H4 as [_ H4]; [reflexivity|].
      unfold resolve_requests in H4. lia. }
    assert (Hw1 : machine_inv tz
                    (run_handler (loadResources_siblings initialRes resp)
                       (settle k w))).
    { rewrite loadResources_siblings_world.
      unfold machine_inv, slot_fetches, resolve_requests in *.
      destruct (resp_error resp); cbn [ui inflight settle]; simpl;
        rewrite ?Hinit, <- ?Hs;
        (split; [exact H1|]); (split; [lia|]);
        (split; [split; intros; (discriminate || lia)|]);
        (split; [discriminate|]);
        intros r' rs' q' Hin; apply list_elem_of_delete_inv in Hin; eauto. }
    destruct (resp_error resp); injection Hstep as <-;
      [exact Hw1|apply machine_inv_begin, Hw1].
Qed.

Lemma reachable_machine_inv w : reachable tz w -> machine_inv tz w.
Proof.
  apply reachable_invariant; [apply machine_inv_mount|].
  intros w0 ev w1. apply machine_inv_step.
Qed.

(** X7. The loading row never stays without a request behind it: in
    every state of the component, while [loadingSlots] is set a slot fetch
    is in flight. *)
Theorem loading_slots_has_fetch_in_flight w :
  reachable tz w ->
  loadingSlots (ui w) = true -> (1 <= slot_fetches w)%nat.
Proof. intros Hr. apply (reachable_machine_inv w Hr). Qed.

(** X8. The resolve runs at most once at a time, and the venue select is
    disabled exactly while it runs: in every state at most one request of
    [loadResources] is in flight, and [loadingResources] is set if and
    only if one is. *)
Theorem loading_resources_iff_resolve_in_flight w :
  reachable tz w ->
  (resolve_requests w <= 1)%nat
  /\ (loadingResources (ui w) = true <-> resolve_requests w = 1%nat).
Proof.
  intros Hr. destruct (reachable_machine_inv w Hr) as (_ & H2 & H3 & _).
  split; assumption.
Qed.

(** X9. Without a starting resource identifier, from the props or the
    URL, the resolve never starts: in every state the venue list is
    empty and no request of [loadResources] is in flight. *)
Theorem no_starting_resource_no_venues w :
  reachable tz w ->
  truthy_string (initialResourceId (ui w)) = false ->
  resources (ui w) = [] /\ resolve_requests w = 0%nat.
Proof.
  intros Hr. destruct (reachable_machine_inv w Hr) as (_ & _ & _ & H4 & _).
  exact H4.
Qed.

(** X10. Every slots query the component has in flight is for a present
    resource identifier, asks for ascending order, and has for bounds the
    start and the end of the local day of one instant, as [startOfDay] and
    [endOfDay] give them in the time zone of the browser. *)
Theorem queries_in_flight_are_day_queries w r rs q :
  reachable tz w ->
  AwaitSlots r rs q ∈ inflight w ->
  day_query tz r q.
Proof.
  intros Hr. destruct (reachable_machine_inv w Hr) as (_ & _ & _ & _ & H5).
  apply H5.
Qed.

End MachineMore.

(** ** The steps of the two effects *)

Section StepsMore.

Variable tz : TimeZone.

Implicit Types (s : State) (w : World) (ev : Event).

(** The fields of the state after the [loadSlots] effect ran. *)
Lemma begin_fields w :
  let w' := run_effect (loadSlots_begin tz) w in
  selectedResourceId (ui w') = selectedResourceId (ui w)
  /\ resources (ui w') = resources (ui w)
  /\ loadingResources (ui w') = loadingResources (ui w)
  /\ slots (ui w') = slots (ui w)
  /\ selectedDate (ui w') = selectedDate (ui w)
  /\ (truthy_string (selectedResourceId (ui w)) = true ->
      selectedSlotIds (ui w') = ∅
      /\ forall ms, selectedDate (ui w) = ValidDate ms ->
           error (ui w') = None
           /\ loadingSlots (ui w') = true
           /\ inflight w'
              = (inflight w
                 ++ [AwaitSlots (selectedResourceId (ui w)) (resources (ui w))
                       (mkQuery (selectedResourceId (ui w))
                          (startOfDay_ms tz ms)
                          (endOfDay_ms tz ms)
                          true)])%list).
Proof.
  rewrite run_effect_begin_world.
  destruct (truthy_string (selectedResourceId (ui w))) eqn:Hr.
  - destruct (selectedDate (ui w)) as [ms|] eqn:Hd; simpl;
      rewrite ?Hd; repeat split; (discriminate || congruence).
  - repeat split; discriminate.
Qed.

(** X11. When the first query of the resolve fails or finds no row, the
    resolve stops there: the message is the error's, or "Resource not
    found", the loading flag is cleared, no second query is sent, and
    the venue list, the selected resource, its name, the slots and the
    selection stay as they were. *)
Theorem resolve_first_query_failure w k r resp w' :
  inflight w !! k = Some (AwaitResource r) ->
  resp_error resp <> None \/ data resp = None ->
  dispatch tz (ResourceResponse k resp) w = Some w' ->
  error (ui w')
    = Some (match resp_error resp with
            | Some e => message_of e "Failed to load resources"
            | None => "Resource not found"
            end)
  /\ loadingResources (ui w') = false
  /\ inflight w' = delete k (inflight w)
  /\ resources (ui w') = resources (ui w)
  /\ selectedResourceId (ui w') = selectedResourceId (ui w)
  /\ selectedResourceName (ui w') = selectedResourceName (ui w)
  /\ slots (ui w') = slots (ui w)
  /\ selectedSlotIds (ui w') = selectedSlotIds (ui w).
Proof.
  intros Hk Hfail Hstep. unfold dispatch in Hstep. rewrite Hk in Hstep.
  injection Hstep as <-. rewrite loadResources_resolved_world.
  destruct (resp_error resp) as [e|]; [repeat split|].
  destruct (data resp); [|repeat split].
  destruct Hfail; congruence.
Qed.

(** X12. When the second query of the resolve fails, the venue list and
    the selected resource stay as they were, the message is set, the
    loading flag is cleared, and the slot load is not restarted: slots,
    selection and the requests in flight, this one apart, are untouched. *)
Theorem resolve_siblings_failure w k initialRes resp e w' :
  inflight w !! k = Some (AwaitSiblings initialRes) ->
  resp_error resp = Some e ->
  dispatch tz (SiblingsResponse k resp) w = Some w' ->
  w' = mkWorld
         (setLoadingResources false
            (setError (Some (message_of e "Failed to load resources")) (ui w)))
         (delete k (inflight w)).
Proof.
  intros Hk He Hstep. unfold dispatch in Hstep. rewrite Hk, He in Hstep.
  injection Hstep as <-. rewrite loadResources_siblings_world, He.
  reflexivity.
Qed.


(** X14. A slots response, whatever it carries, clears the loading flag,
    removes its own request and no other, and leaves the selection, the
    selected resource and date, the venue list and the resolve's flag as
    they were. A successful one leaves the message as it was and sets the
    column title to the name of the first venue of the captured list
    with the captured identifier, if there is one. *)
Theorem slots_response_frame w k r rs q resp w' :
  inflight w !! k = Some (AwaitSlots r rs q) ->
  dispatch tz (SlotsResponse k resp) w = Some w' ->
  loadingSlots (ui w') = false
  /\ inflight w' = delete k (inflight w)
  /\ selectedSlotIds (ui w') = selectedSlotIds (ui w)
  /\ selectedResourceId (ui w') = selectedResourceId (ui w)
  /\ selectedDate (ui w') = selectedDate (ui w)
  /\ resources (ui w') = resources (ui w)
  /\ loadingResources (ui w') = loadingResources (ui w)
  /\ (resp_error resp = None ->
      error (ui w') = error (ui w)
      /\ selectedResourceName (ui w')
         = match find (fun x => bool_decide (Some (item_id x) = r)) rs with
           | Some item => item_name item
           | None => selectedResourceName (ui w)
           end).
Proof.
  intros Hk Hstep. unfold dispatch in Hstep. rewrite Hk in Hstep.
  injection Hstep as <-.
  destruct (loadSlots_resolved_world r rs resp (settle k w))
    as (name & -> & ->).
  destruct (resp_error resp); simpl; repeat split; discriminate.
Qed.


(** X16. A failed slot fetch is shown unless the message is empty: the
    banner holds the error's message, or "Failed to load slots" for a
    thrown value that is no [Error], and there is no banner exactly when
    an [Error] with the empty message was thrown. *)
Theorem failed_fetch_banner w k r rs q resp e w' :
  inflight w !! k = Some (AwaitSlots r rs q) ->
  resp_error resp = Some e ->
  dispatch tz (SlotsResponse k resp) w = Some w' ->
  error_banner (ui w')
  = if instanceof_Error e
    then (if decide (message e = EmptyString) then None
          else Some (message e))
    else Some "Failed to load slots".
Proof.
  intros Hk He Hstep. unfold dispatch in Hstep. rewrite Hk in Hstep.
  injection Hstep as <-. unfold run_handler. simpl.
  rewrite (loadSlots_resolved_failed r rs resp e _ He).
  unfold error_banner, message_of. simpl.
  destruct (instanceof_Error e); [|reflexivity].
  destruct (message e); reflexivity.
Qed.

(** X17. In a run without overlapping fetches the loading row is shown
    exactly while a slot fetch is in flight, and whenever the BOOK NOW
    button is enabled the table is not loading and shows a selected row
    that is not booked. *)
Theorem enabled_button_has_selected_row w :
  reachable_within no_overlap tz w ->
  (loadingSlots (ui w) = true <-> (1 <= slot_fetches w)%nat)
  /\ (book_disabled (ui w) = false ->
      loadingSlots (ui w) = false
      /\ exists idx slot,
           SlotRowView idx slot true ∈ table_body (ui w)
           /\ is_booked slot = false).
Proof.
  intros Hw.
  pose proof (reachable_machine_inv tz w (reachable_within_reachable tz _ w Hw))
    as (Hflag & _).
  destruct Hw as (props & evs & Hrun).
  pose proof (run_within_inv tz evs _ _ (inv_mount tz props) Hrun)
    as (Hvalid & Hfetch & _).
  split; [split; [exact Hflag|intros H1; apply (Hfetch H1)]|].
  intros Hbook. unfold book_disabled in Hbook. apply Nat.eqb_neq in Hbook.
  assert (Hne : selectedSlotIds (ui w) <> ∅).
  { intros He. apply Hbook. rewrite He. apply size_empty. }
  assert (Hl : loadingSlots (ui w) = false).
  { destruct (loadingSlots (ui w)) eqn:Hl; [|reflexivity].
    destruct (Hfetch (Hflag eq_refl)) as [_ He]. contradiction. }
  split; [exact Hl|].
  apply set_choose_L in Hne as [x Hx].
  destruct (Hvalid x Hx) as (slot & Hin & Hid & Hb).
  apply list_elem_of_lookup in Hin as [idx Hidx].
  exists idx, slot. split; [|exact Hb].
  unfold table_body. rewrite Hl. simpl.
  apply elem_of_app. right. apply elem_of_lookup_imap.
  exists idx, slot. split; [|exact Hidx].
  f_equal. symmetry. apply bool_decide_eq_true. rewrite Hid. exact Hx.
Qed.

End StepsMore.

(** ** The time label *)

Section TimeLabel.

Variable parseDate : string -> Date.
Variable tz : TimeZone.

Lemma strip_prefix_Some pat : forall s rest,
  strip_prefix pat s = Some rest -> s = (pat ++ rest)%string.
Proof.
  induction pat as [|a pat IH]; intros s rest H; simpl in H.
  - injection H as ->. reflexivity.
  - destruct s as [|b s]; [discriminate|].
    destruct (Ascii.eqb_spec a b) as [->|]; [|discriminate].
    change (String b s = String b (pat ++ rest)%string).
    f_equal. apply IH, H.
Qed.

(** Replacing a pattern by itself changes nothing, so the two
    [replace("m", "m")] of [formatTimeRange] are the identity. *)
Lemma replace_same pat s : replace pat pat s = s.
Proof.
  induction s as [|c s IH]; simpl.
  - destruct (strip_prefix pat EmptyString) as [rest|] eqn:H; [|reflexivity].
    symmetry. apply strip_prefix_Some, H.
  - destruct (strip_prefix pat (String c s)) as [rest|] eqn:H.
    + symmetry. apply strip_prefix_Some, H.
    + f_equal. exact IH.
Qed.

Lemma getHours_range ms : 0 <= getHours tz ms < 24.
Proof.
  unfold getHours, msPerDay.
  pose proof (Z.mod_pos_bound (LocalTime tz ms) 86400000 ltac:(lia)) as Hm.
  split; [apply Z.div_pos; lia|].
  apply Z.div_lt_upper_bound; lia.
Qed.

Lemma lower_hour_label hours :
  0 <= hours < 24 ->
  toLowerCase
    (String.append
       (pretty (if hours mod 12 =? 0 then 12 else hours mod 12))
       (if 1 <=? hours / 12 then "PM" else "AM"))
  = hour_label hours.
Proof.
  intros Hh.
  assert (Hn : exists n, (n < 24)%nat /\ hours = Z.of_nat n)
    by (exists (Z.to_nat hours); lia).
  destruct Hn as (n & Hn & ->).
  do 24 (destruct n as [|n]; [vm_compute; reflexivity|]). lia.
Qed.

(** X18. [formatTimeRange] never throws, and when either timestamp does
    not parse to a valid date it gives back the two raw strings joined by
    " - ". *)
Theorem formatTimeRange_fallback startISO endISO :
  (exists label,
     formatTimeRange parseDate tz startISO endISO = Returned label)
  /\ (parseDate startISO = InvalidDate \/ parseDate endISO = InvalidDate ->
      formatTimeRange parseDate tz startISO endISO
      = Returned (startISO ++ " - " ++ endISO)%string).
Proof.
  unfold formatTimeRange, format_ha.
  destruct (parseDate startISO), (parseDate endISO); split; eauto;
    intros [H|H]; discriminate || reflexivity.
Qed.

(** X19. When both timestamps parse, the label is the two local hours on
    the 12-hour clock, [12] for midnight and noon, each followed by [am]
    or [pm] in lower case, joined by " - "; minutes and seconds do not
    show. *)
Theorem formatTimeRange_hours startISO endISO ms1 ms2 :
  parseDate startISO = ValidDate ms1 ->
  parseDate endISO = ValidDate ms2 ->
  formatTimeRange parseDate tz startISO endISO
  = Returned (hour_label (getHours tz ms1) ++ " - "
              ++ hour_label (getHours tz ms2))%string.
Proof.
  intros H1 H2. unfold formatTimeRange, format_ha. rewrite H1, H2.
  cbv zeta. rewrite !replace_same.
  rewrite !lower_hour_label by apply getHours_range.
  reflexivity.
Qed.

End TimeLabel.

(** ** The total on doubles *)

Section DoubleTotal.

Implicit Types (S : list Doubles.SlotRow) (Σ : gset string) (acc : float).





End DoubleTotal.

Section DoubleTotalOnSample.

Import Sample.


(** The same with prices 2^53, 1 and 1: each [1] is lost to rounding, and
    the total is 2^53 although the sum, 2^53 + 2, is a double. *)
Lemma double_total_loses_small_prices :
  Doubles.total fortunes all_three = 9007199254740992%float
  /\ Doubles.spec_total fortunes all_three
     = Doubles.units 9007199254740994%float
  /\ Doubles.total (rev fortunes) all_three = 9007199254740994%float.
Proof. repeat split; vm_compute; reflexivity. Qed.

End DoubleTotalOnSample.

(** ** Changes, completions and clicks along a run *)

Section Runs.

Variable tz : TimeZone.

Implicit Types (s : State) (w : World) (ev : Event).

Lemma listed_venue_truthy value s :
  listed_venue value s = true -> truthy_string (Some value) = true.
Proof. unfold listed_venue. intros H. apply andb_prop in H. tauto. Qed.

Lemma or_string_absent (p x : option string) :
  truthy_string (or_string p x) = false -> truthy_string p = false.
Proof.
  unfold or_string. destruct (truthy_string p) eqn:E; [|reflexivity].
  rewrite E. discriminate.
Qed.

Lemma absent_inv_same w w' :
  selectedResourceId (ui w') = selectedResourceId (ui w) ->
  selectedSlotIds (ui w') = selectedSlotIds (ui w) ->
  slots (ui w') = slots (ui w) ->
  slot_fetches w' = slot_fetches w ->
  absent_inv w -> absent_inv w'.
Proof.
  unfold absent_inv. intros -> -> -> ->. auto.
Qed.

Lemma absent_inv_begin w :
  absent_inv w -> absent_inv (run_effect (loadSlots_begin tz) w).
Proof.
  intros Hw.
  destruct (run_effect_begin tz w) as [[_ ->]|(Hr & _ & _ & Hrid & _)];
    [exact Hw|].
  unfold absent_inv. rewrite Hrid, Hr. discriminate.
Qed.

Lemma absent_inv_mount props : absent_inv (mount tz props).
Proof.
  unfold mount. apply absent_inv_begin. unfold run_effect.
  cbn [ui inflight].
  destruct (loadResources_begin_ledger (init_state props))
    as (o & s' & -> & (Hsl & Hsel & _) & Ho).
  unfold absent_inv, slot_fetches. cbn [ui inflight].
  rewrite Hsl, Hsel. intros _. split; [reflexivity|]. split; [reflexivity|].
  destruct o as [p|]; [|reflexivity].
  simpl. rewrite count_slots_cons, Ho. reflexivity.
Qed.

Lemma absent_inv_step w ev w' :
  absent_inv w -> dispatch tz ev w = Some w' -> absent_inv w'.
Proof.
  intros Hw Hstep.
  destruct ev as [value|[ms|]|idx|k resp|k resp|k resp]; simpl in Hstep.
  - destruct (loadingResources (ui w)); [discriminate|].
    destruct (listed_venue value (ui w)) eqn:Hlisted;
      [simpl in Hstep|discriminate].
    destruct (decide (selectedResourceId (ui w) = Some value));
      injection Hstep as <-; [exact Hw|].
    apply listed_venue_truthy in Hlisted.
    match goal with
    | |- absent_inv (run_effect _ ?w1) =>
        destruct (run_effect_begin tz w1) as [[Hr _]|(Hr & _ & _ & Hrid & _)]
    end.
    + change (truthy_string (Some value) = false) in Hr. congruence.
    + unfold absent_inv. rewrite Hrid, Hr. discriminate.
  - injection Hstep as <-. apply absent_inv_begin.
    revert Hw. apply absent_inv_same; reflexivity.
  - injection Hstep as <-. exact Hw.
  - destruct (loadingSlots (ui w)); [discriminate|].
    destruct (slots (ui w) !! idx) as [slot|] eqn:Hidx; [|discriminate].
    injection Hstep as <-. intros Habs.
    assert (Hrid : truthy_string (selectedResourceId (ui w)) = false).
    { revert Habs. unfold run_handler, toggleSelect.
      destruct (is_booked slot); simpl; auto. }
    destruct (Hw Hrid) as (_ & Hnil & _). rewrite Hnil in Hidx.
    discriminate.
  - destruct (inflight w !! k) as [[r rs q| |]|] eqn:Hk; try discriminate.
    injection Hstep as <-.
    pose proof (count_slots_delete _ _ _ Hk) as Hc. simpl in Hc.
    destruct (loadSlots_resolved_world r rs resp (settle k w))
      as (name & -> & _).
    intros Habs.
    assert (Hrid : truthy_string (selectedResourceId (ui w)) = false)
      by (revert Habs; destruct (resp_error resp); simpl; auto).
    destruct (Hw Hrid) as (_ & _ & Hzero). unfold slot_fetches in Hzero.
    lia.
  - destruct (inflight w !! k) as [[|r|]|] eqn:Hk; try discriminate.
    injection Hstep as <-.
    pose proof (count_slots_delete _ _ _ Hk) as Hc. simpl in Hc.
    rewrite loadResources_resolved_world. revert Hw.
    destruct (resp_error resp) as [e|]; [|destruct (data resp) as [res|]];
      apply absent_inv_same; try reflexivity;
      unfold slot_fetches; cbn [inflight settle];
      rewrite ?count_slots_app, ?count_slots_cons; simpl;
      change (count_slots []) with 0%nat; lia.
  - destruct (inflight w !! k) as [[| |initialRes]|] eqn:Hk; try discriminate.
    pose proof (count_slots_delete _ _ _ Hk) as Hc. simpl in Hc.
    assert (Hw1 : absent_inv
                    (run_handler (loadResources_siblings initialRes resp)
                       (settle k w))).
    { rewrite loadResources_siblings_world.
      destruct (resp_error resp) as [e|].
      - revert Hw. apply absent_inv_same; try reflexivity.
        unfold slot_fetches. cbn [inflight settle]. lia.
      - unfold absent_inv, slot_fetches. cbn [ui inflight settle]. simpl.
        intros Habs.
        assert (Hrid : truthy_string (selectedResourceId (ui w)) = false)
          by exact (or_string_absent _ _ Habs).
        destruct (Hw Hrid) as (Hsel & Hnil & Hzero).
        unfold slot_fetches in Hzero. repeat split; try assumption. lia. }
    destruct (resp_error resp); injection Hstep as <-;
      [exact Hw1|apply absent_inv_begin, Hw1].
Qed.

Lemma reachable_absent_inv w : reachable tz w -> absent_inv w.
Proof.
  revert w. apply reachable_invariant; [apply absent_inv_mount|].
  intros w ev w'. apply absent_inv_step.
Qed.

(** C2. Whenever the active resource or date changes, in any state the
    component can reach and for every selection it holds there, the
    selection is empty right after the change, while the slot list is
    still the previous one, so before any result of the new fetch is
    applied. This is so when the resource identifier is absent as well:
    then no fetch is sent and the slot list is left as it was. *)
Theorem change_empties_selection w ev w' :
  reachable tz w ->
  changes_key ev w ->
  dispatch tz ev w = Some w' ->
  selectedSlotIds (ui w') = ∅
  /\ slots (ui w') = slots (ui w)
  /\ (truthy_string (selectedResourceId (ui w')) = false ->
      inflight w' = inflight w).
Proof.
  intros Hreach Hchg Hstep.
  assert (Hw' : absent_inv w').
  { apply (absent_inv_step w ev); [|exact Hstep].
    apply reachable_absent_inv, Hreach. }
  assert (Hw1 : exists w1, w' = run_effect (loadSlots_begin tz) w1
                 /\ slots (ui w1) = slots (ui w)
                 /\ inflight w1 = inflight w).
  { destruct ev as [value|[ms|]| | | |]; simpl in Hchg; try contradiction.
    - unfold dispatch in Hstep.
      destruct (loadingResources (ui w)); [discriminate|].
      destruct (listed_venue value (ui w)) eqn:Hlisted;
        [simpl in Hstep|discriminate].
      rewrite decide_False in Hstep by exact Hchg.
      injection Hstep as <-. eexists. split; [reflexivity|]. auto.
    - injection Hstep as <-. eexists. split; [reflexivity|]. auto. }
  destruct Hw1 as (w1 & E & Hsl & Hfl).
  destruct (run_effect_begin tz w1)
    as [[Hr E1]|(Hr & Hempty & Hsl' & Hrid & _)]; rewrite <- E in *.
  - rewrite E1 in *. split; [apply Hw', Hr|]. split; [exact Hsl|].
    intros _. exact Hfl.
  - split; [exact Hempty|]. split; [congruence|].
    rewrite Hrid, Hr. discriminate.
Qed.

Lemma dispatch_applied_rows w ev w' :
  dispatch tz ev w = Some w' ->
  slots (ui w') = applied_rows ev (slots (ui w)).
Proof.
  intros Hstep.
  destruct ev as [value|[ms|]|idx|k resp|k resp|k resp]; simpl in Hstep.
  - destruct (loadingResources (ui w)); [discriminate|].
    destruct (listed_venue value (ui w)); [simpl in Hstep|discriminate].
    destruct (decide (selectedResourceId (ui w) = Some value));
      injection Hstep as <-; [reflexivity|].
    match goal with
    | |- context [run_effect _ ?w1] =>
        destruct (begin_fields tz w1) as (_ & _ & _ & -> & _)
    end. reflexivity.
  - injection Hstep as <-.
    match goal with
    | |- context [run_effect _ ?w1] =>
        destruct (begin_fields tz w1) as (_ & _ & _ & -> & _)
    end. reflexivity.
  - injection Hstep as <-. reflexivity.
  - destruct (loadingSlots (ui w)); [discriminate|].
    destruct (slots (ui w) !! idx) as [slot|]; [|discriminate].
    injection Hstep as <-. unfold run_handler, toggleSelect.
    destruct (is_booked slot); reflexivity.
  - destruct (inflight w !! k) as [[r rs q| |]|] eqn:Hk; try discriminate.
    injection Hstep as <-.
    destruct (loadSlots_resolved_world r rs resp (settle k w))
      as (name & -> & _).
    simpl. destruct (resp_error resp); reflexivity.
  - destruct (inflight w !! k) as [[|r|]|] eqn:Hk; try discriminate.
    injection Hstep as <-. rewrite loadResources_resolved_world.
    destruct (resp_error resp); [|destruct (data resp)]; reflexivity.
  - destruct (inflight w !! k) as [[| |initialRes]|] eqn:Hk; try discriminate.
    assert (Hw1 : slots (ui (run_handler
                              (loadResources_siblings initialRes resp)
                              (settle k w))) = slots (ui w)).
    { rewrite loadResources_siblings_world.
      destruct (resp_error resp); reflexivity. }
    destruct (resp_error resp); injection Hstep as <-; [exact Hw1|].
    match goal with
    | |- context [run_effect _ ?w1] =>
        destruct (begin_fields tz w1) as (_ & _ & _ & -> & _)
    end. exact Hw1.
Qed.

(** C3, as the code has it. No completing slot fetch is discarded for
    being stale: one that completes without error replaces the slot list
    by its rows, whatever resource and date it was sent for, and one
    that fails leaves the list. So after any run of events, overlapping
    fetches included, the list displayed is the rows of the fetch that
    completed last without error, in the order of completion and not of
    initiation, or the list from before the run if none did. *)
Theorem slots_shown_are_last_completed evs : forall w w',
  run tz evs w = Some w' ->
  slots (ui w') = last_completed evs (slots (ui w)).
Proof.
  unfold last_completed.
  induction evs as [|ev evs IH]; intros w w' Hrun; simpl in Hrun.
  - injection Hrun as <-. reflexivity.
  - destruct (dispatch tz ev w) as [w1|] eqn:Hstep; [|discriminate].
    simpl. rewrite <- (dispatch_applied_rows w ev w1 Hstep).
    apply IH, Hrun.
Qed.

Lemma waiting_inv_begin w :
  waiting_inv w -> waiting_inv (run_effect (loadSlots_begin tz) w).
Proof.
  intros Hw.
  destruct (run_effect_begin tz w) as [[_ ->]|(_ & Hempty & _)];
    [exact Hw|].
  split; [apply selection_valid_empty, Hempty|intros _; exact Hempty].
Qed.

Lemma waiting_inv_same w w' :
  same_ledger (ui w) (ui w') ->
  slot_fetches w' = slot_fetches w ->
  waiting_inv w -> waiting_inv w'.
Proof.
  intros (Hsl & Hsel & _) Hn (Hv & Hf).
  unfold waiting_inv, selection_valid. rewrite Hn, Hsl, Hsel. auto.
Qed.

Lemma waiting_inv_mount props : waiting_inv (mount tz props).
Proof.
  unfold mount. apply waiting_inv_begin. unfold run_effect.
  cbn [ui inflight].
  destruct (loadResources_begin_ledger (init_state props))
    as (o & s' & -> & (Hsl & Hsel & _) & Ho).
  unfold waiting_inv. cbn [ui]. split; [|intros _; rewrite Hsel; reflexivity].
  apply selection_valid_empty. rewrite Hsel. reflexivity.
Qed.

Lemma waiting_inv_step w ev w' :
  waiting_inv w -> click_waits ev w = true ->
  dispatch tz ev w = Some w' -> waiting_inv w'.
Proof.
  intros Hw Hguard Hstep.
  destruct ev as [value|[ms|]|idx|k resp|k resp|k resp]; simpl in Hstep.
  - destruct (loadingResources (ui w)); [discriminate|].
    destruct (listed_venue value (ui w)); [simpl in Hstep|discriminate].
    destruct (decide (selectedResourceId (ui w) = Some value));
      injection Hstep as <-; [exact Hw|].
    apply waiting_inv_begin. revert Hw.
    apply waiting_inv_same; [unfold same_ledger; simpl; auto|reflexivity].
  - injection Hstep as <-. apply waiting_inv_begin.
    destruct Hw as [Hv Hf]. split; [exact Hv|exact Hf].
  - injection Hstep as <-. exact Hw.
  - destruct (loadingSlots (ui w)); [discriminate|].
    destruct (slots (ui w) !! idx) as [slot|] eqn:Hidx; [|discriminate].
    injection Hstep as <-. simpl in Hguard. apply Nat.eqb_eq in Hguard.
    destruct Hw as [Hv _].
    destruct (toggleSelect_ledger slot (ui w)) as (Hv' & _).
    { apply list_elem_of_lookup. eauto. }
    { exact Hv. }
    split; [exact Hv'|].
    unfold slot_fetches, run_handler in *. cbn [inflight]. lia.
  - destruct (inflight w !! k) as [[r rs q| |]|] eqn:Hk; try discriminate.
    injection Hstep as <-.
    pose proof (count_slots_delete _ _ _ Hk) as Hc. simpl in Hc.
    destruct Hw as [_ Hf]. unfold slot_fetches in Hf.
    assert (Hempty : selectedSlotIds (ui w) = ∅) by (apply Hf; lia).
    destruct (loadSlots_resolved_ledger r rs resp (ui w))
      as (s' & E & Hsel & _).
    assert (Hsel' : selectedSlotIds
                      (ui (run_handler (loadSlots_resolved r rs resp)
                             (settle k w))) = ∅).
    { unfold run_handler. cbn [ui settle]. rewrite E. simpl. congruence. }
    split; [apply selection_valid_empty, Hsel'|intros _; exact Hsel'].
  - destruct (inflight w !! k) as [[|r|]|] eqn:Hk; try discriminate.
    injection Hstep as <-.
    pose proof (count_slots_delete _ _ _ Hk) as Hc. simpl in Hc.
    rewrite loadResources_resolved_world. revert Hw.
    destruct (resp_error resp) as [e|]; [|destruct (data resp) as [res|]];
      apply waiting_inv_same; try (unfold same_ledger; simpl; tauto);
      unfold slot_fetches; cbn [inflight settle];
      rewrite ?count_slots_app, ?count_slots_cons; simpl;
      change (count_slots []) with 0%nat; lia.
  - destruct (inflight w !! k) as [[| |initialRes]|] eqn:Hk; try discriminate.
    pose proof (count_slots_delete _ _ _ Hk) as Hc. simpl in Hc.
    assert (Hw1 : waiting_inv
                    (run_handler (loadResources_siblings initialRes resp)
                       (settle k w))).
    { rewrite loadResources_siblings_world. revert Hw.
      destruct (resp_error resp); apply waiting_inv_same;
        try (unfold same_ledger; simpl; tauto);
        unfold slot_fetches; cbn [inflight settle]; lia. }
    destruct (resp_error resp); injection Hstep as <-;
      [exact Hw1|apply waiting_inv_begin, Hw1].
Qed.

(** C8, as the code has it. In every state reached through the
    component's operations with no row toggled while a slot fetch is in
    flight, every identifier of the selection is the identifier of a
    slot of the current list that is not booked; fetches may overlap. *)
Theorem selection_valid_when_clicks_wait w :
  reachable_guarded click_waits tz w -> selection_valid (ui w).
Proof.
  intros (props & evs & Hrun).
  assert (Hw : waiting_inv w); [|apply Hw].
  revert Hrun. generalize (waiting_inv_mount props).
  generalize (mount tz props).
  induction evs as [|ev evs IH]; intros w0 H0 Hrun; simpl in Hrun.
  - injection Hrun as <-. exact H0.
  - destruct (click_waits ev w0) eqn:Hguard; [|discriminate].
    destruct (dispatch tz ev w0) as [w1|] eqn:Hstep; [|discriminate].
    apply (IH w1); [|exact Hrun].
    apply (waiting_inv_step w0 ev); assumption.
Qed.

End Runs.

(** ** The further properties on the sample data *)

Section MoreOnSample.

Import Sample.

Lemma total_nonnegative_monotone_sample :
  0 <= total (slots picked) {["a"]}
    <= total (slots picked) ({["a"]} ∪ {["d"]}).
Proof.
  apply (total_nonnegative_monotone (slots picked) {["a"]} ({["a"]} ∪ {["d"]})).
  - intros s Hs. simpl in Hs.
    repeat (apply elem_of_cons in Hs as [->|Hs]; [simpl; lia|]).
    apply elem_of_nil in Hs. contradiction.
  - apply union_subseteq_l.
Defined.

Lemma toggle_flips_only_clicked_sample :
  "a" ∉ selectedSlotIds (snd (toggleSelect slotA picked)).
Proof.
  intros Hin.
  destruct (toggle_flips_only_clicked slotA picked eq_refl) as (Hflip & _).
  apply Hflip; [exact Hin|].
  vm_compute. reflexivity.
Defined.

Lemma toggle_changes_size_by_one_sample :
  size (selectedSlotIds (snd (toggleSelect slotFree picked))) = 2%nat
  /\ book_disabled (snd (toggleSelect slotFree picked)) = false.
Proof.
  pose proof (toggle_changes_size_by_one slotFree picked eq_refl) as H.
  rewrite decide_False in H by (vm_compute; discriminate).
  exact H.
Defined.

Lemma loading_slots_has_fetch_in_flight_sample :
  exists w,
    run utc [SelectDay (Some nov12_ms)] (mount utc props) = Some w
    /\ loadingSlots (ui w) = true
    /\ (1 <= slot_fetches w)%nat.
Proof.
  eexists. split; [vm_compute; reflexivity|]. split; [reflexivity|].
  apply (loading_slots_has_fetch_in_flight utc).
  - exists props, [SelectDay (Some nov12_ms)]. vm_compute. reflexivity.
  - reflexivity.
Defined.

Lemma loading_resources_iff_resolve_in_flight_sample :
  exists w,
    run utc [ResourceResponse 0 (ok courtA)] (mount utc props) = Some w
    /\ (resolve_requests w <= 1)%nat
    /\ (loadingResources (ui w) = true <-> resolve_requests w = 1%nat).
Proof.
  eexists. split; [vm_compute; reflexivity|].
  apply (loading_resources_iff_resolve_in_flight utc).
  exists props, [ResourceResponse 0 (ok courtA)]. vm_compute. reflexivity.
Defined.

Lemma no_starting_resource_no_venues_sample :
  exists w,
    run utc [SelectDay (Some nov12_ms); SelectDay (Some nov11_ms)] (mount utc no_venue)
      = Some w
    /\ resources (ui w) = []
    /\ resolve_requests w = 0%nat.
Proof.
  eexists. split; [vm_compute; reflexivity|].
  apply (no_starting_resource_no_venues utc).
  - exists no_venue, [SelectDay (Some nov12_ms); SelectDay (Some nov11_ms)].
    vm_compute. reflexivity.
  - reflexivity.
Defined.

Lemma queries_in_flight_are_day_queries_sample :
  AwaitSlots (Some "r1") [] query_nov2 ∈ inflight (mount new_york props_nov2)
  /\ day_query new_york (Some "r1") query_nov2.
Proof.
  assert (Hin : AwaitSlots (Some "r1") [] query_nov2
                  ∈ inflight (mount new_york props_nov2))
    by (right; left).
  split; [exact Hin|].
  apply (queries_in_flight_are_day_queries new_york
           (mount new_york props_nov2) _ [] _);
    [|exact Hin].
  exists props_nov2, []. reflexivity.
Defined.

Lemma resolve_first_query_failure_sample :
  exists w',
    dispatch utc (ResourceResponse 0 (mkResponse None None)) (mount utc props)
      = Some w'
    /\ error (ui w') = Some "Resource not found"
    /\ loadingResources (ui w') = false
    /\ resources (ui w') = [].
Proof.
  eexists. split; [vm_compute; reflexivity|].
  edestruct (resolve_first_query_failure utc (mount utc props) 0 (Some "r1")
               (mkResponse None None))
    as (He & Hl & _ & Hres & _).
  - reflexivity.
  - right. reflexivity.
  - vm_compute. reflexivity.
  - split; [exact He|]. split; [exact Hl|exact Hres].
Defined.

Lemma resolve_siblings_failure_sample :
  exists w',
    dispatch utc (SiblingsResponse 0 failed) overridden = Some w'
    /\ resources (ui w') = []
    /\ selectedResourceId (ui w') = Some "r2"
    /\ inflight w' = [].
Proof.
  eexists. split; [vm_compute; reflexivity|].
  rewrite (resolve_siblings_failure utc overridden 0 courtA failed
             (mkThrown true "Failed to fetch") _ eq_refl eq_refl
             ltac:(vm_compute; reflexivity)).
  repeat split.
Defined.


Lemma slots_response_frame_sample :
  exists w',
    dispatch utc (SlotsResponse 0 (ok [slotA])) stale = Some w'
    /\ loadingSlots (ui w') = false
    /\ inflight w' = []
    /\ selectedResourceName (ui w') = "Court A".
Proof.
  eexists. split; [vm_compute; reflexivity|].
  edestruct (slots_response_frame utc stale 0 (Some "r1") siblings query11
               (ok [slotA]))
    as (Hl & Hfl & _ & _ & _ & _ & _ & Hok).
  - reflexivity.
  - vm_compute. reflexivity.
  - destruct Hok as [_ Hname]; [reflexivity|].
    split; [exact Hl|]. split; [exact Hfl|exact Hname].
Defined.


Lemma failed_fetch_banner_sample :
  exists w',
    dispatch utc (SlotsResponse 0 failed) stale = Some w'
    /\ error_banner (ui w') = Some "Failed to fetch".
Proof.
  eexists. split; [vm_compute; reflexivity|].
  apply (failed_fetch_banner utc stale 0 (Some "r1") siblings query11 failed
           (mkThrown true "Failed to fetch")); vm_compute; reflexivity.
Defined.

Lemma enabled_button_has_selected_row_sample :
  exists w,
    run_within no_overlap utc pick_in_turn (mount utc props) = Some w
    /\ book_disabled (ui w) = false
    /\ loadingSlots (ui w) = false.
Proof.
  eexists. split; [vm_compute; reflexivity|].
  match goal with
  | |- book_disabled (ui ?w) = false /\ _ =>
      assert (Hbook : book_disabled (ui w) = false)
        by (vm_compute; reflexivity);
      destruct (enabled_button_has_selected_row utc w) as [_ Hrow]
  end.
  - exists props, pick_in_turn. vm_compute. reflexivity.
  - split; [exact Hbook|]. apply (Hrow Hbook).
Defined.

Lemma formatTimeRange_fallback_sample :
  formatTimeRange parse utc "2025-11-11T09:30:00+00:00" "soon"
  = Returned "2025-11-11T09:30:00+00:00 - soon".
Proof.
  apply (formatTimeRange_fallback parse utc "2025-11-11T09:30:00+00:00" "soon").
  right. reflexivity.
Defined.

Lemma formatTimeRange_hours_sample :
  formatTimeRange parse utc "2025-11-11T09:30:00+00:00"
    "2025-11-11T17:00:00+00:00"
  = Returned "9am - 5pm"
  /\ formatTimeRange parse_nov2 new_york "2025-11-02T05:30:00+00:00"
       "2025-11-02T07:30:00+00:00"
     = Returned "1am - 2am".
Proof.
  split.
  - apply (formatTimeRange_hours parse utc "2025-11-11T09:30:00+00:00"
             "2025-11-11T17:00:00+00:00" 1762853400000 1762880400000);
      reflexivity.
  - apply (formatTimeRange_hours parse_nov2 new_york
             "2025-11-02T05:30:00+00:00" "2025-11-02T07:30:00+00:00"
             1762061400000 1762068600000);
      reflexivity.
Defined.


Lemma change_empties_selection_sample :
  (exists w w',
     run utc pick_first (mount utc props) = Some w
     /\ selectedSlotIds (ui w) = {["a"]}
     /\ dispatch utc (SelectDay (Some nov12_ms)) w = Some w'
     /\ selectedSlotIds (ui w') = ∅
     /\ slots (ui w') = slots (ui w)
     /\ (truthy_string (selectedResourceId (ui w')) = false ->
         inflight w' = inflight w))
  /\ (exists w',
        dispatch utc (SelectDay (Some nov12_ms)) (mount utc no_venue) = Some w'
        /\ truthy_string (selectedResourceId (ui w')) = false
        /\ selectedSlotIds (ui w') = ∅
        /\ slots (ui w') = slots (ui (mount utc no_venue))
        /\ (truthy_string (selectedResourceId (ui w')) = false ->
            inflight w' = inflight (mount utc no_venue))).
Proof.
  split.
  - eexists _, _. split; [vm_compute; reflexivity|].
    split; [vm_compute; reflexivity|]. split; [vm_compute; reflexivity|].
    apply (change_empties_selection utc _ (SelectDay (Some nov12_ms))).
    + exists props, pick_first. vm_compute. reflexivity.
    + exact I.
    + vm_compute. reflexivity.
  - eexists. split; [vm_compute; reflexivity|]. split; [reflexivity|].
    apply (change_empties_selection utc (mount utc no_venue)
             (SelectDay (Some nov12_ms))).
    + exists no_venue, []. reflexivity.
    + exact I.
    + vm_compute. reflexivity.
Defined.

Lemma slots_shown_are_last_completed_sample :
  (exists w,
     run utc out_of_order (mount utc props) = Some w
     /\ last_completed out_of_order [] = [slotA]
     /\ slots (ui w) = last_completed out_of_order (slots (ui (mount utc props))))
  /\ (exists w,
        run utc last_fails (mount utc props) = Some w
        /\ last_completed last_fails [] = [slotB]
        /\ slots (ui w)
           = last_completed last_fails (slots (ui (mount utc props)))).
Proof.
  split.
  - eexists. split; [vm_compute; reflexivity|]. split; [reflexivity|].
    apply (slots_shown_are_last_completed utc out_of_order (mount utc props)).
    vm_compute. reflexivity.
  - eexists. split; [vm_compute; reflexivity|]. split; [reflexivity|].
    apply (slots_shown_are_last_completed utc last_fails (mount utc props)).
    vm_compute. reflexivity.
Defined.

Lemma selection_valid_when_clicks_wait_sample :
  exists w,
    run_guarded click_waits utc out_of_order (mount utc props) = Some w
    /\ selectedSlotIds (ui w) = {["a"]}
    /\ slots (ui w) = [slotA]
    /\ selection_valid (ui w).
Proof.
  eexists. split; [vm_compute; reflexivity|].
  split; [vm_compute; reflexivity|]. split; [reflexivity|].
  apply (selection_valid_when_clicks_wait utc).
  exists props, out_of_order. vm_compute. reflexivity.
Defined.

End MoreOnSample.

End ServiceAvailability.

(** * OwnerServicesTable: the services of an owner, grouped

    A shallow embedding of [fetchOwnerServices] of the owner-facing
    services table: the rows of [business_resources] joined with their
    service and business are grouped by [service_id] in a [Map], one entry
    per service with the number of its resources.

    A [Map<number, OwnerService>] is a list of key and value pairs in
    insertion order, keys distinct: [set] on a key that is present
    replaces the value where it stands, [set] on a new key appends. *)

Module OwnerServicesTable.

(** The joined [services] row: [id], [popular_products],
    [default_duration_min]. *)
Record ServiceRef := mkServiceRef {
  svc_id : Z;
  popular_products : string;
  svc_default_duration_min : option Z;
}.

(** The joined [businesses] row: [owner_id]. *)
Record BusinessRef := mkBusinessRef {
  owner_id : string;
}.

(** A row of the query; a join that matches nothing is [null]. *)
Record Item := mkItem {
  service_id : Z;
  services : option ServiceRef;
  business_id : string;
  businesses : option BusinessRef;
}.

Record OwnerService := mkOwnerService {
  os_service_id : Z;
  service_name : string;
  default_duration_min : option Z;
  total_resources : Z;
}.

Definition JsMap : Type := list (Z * OwnerService).

Definition map_get (k : Z) (m : JsMap) : option OwnerService :=
  snd <$> find (fun kv => fst kv =? k) m.

Definition map_has (k : Z) (m : JsMap) : bool :=
  match find (fun kv => fst kv =? k) m with
  | Some _ => true
  | None => false
  end.

Fixpoint map_set (k : Z) (v : OwnerService) (m : JsMap) : JsMap :=
  match m with
  | [] => [(k, v)]
  | (k', v') :: m' =>
      if k' =? k then (k, v) :: m' else (k', v') :: map_set k v m'
  end.

Definition map_values (m : JsMap) : list OwnerService := map snd m.

(** The body of [data?.forEach((item) => ...)] on one item. The [get]
    after a [has] that held always finds the entry. *)
Definition forEach_body (serviceMap : JsMap) (item : Item) : JsMap :=
  let serviceId := service_id item in
  match services item, businesses item with
  | Some svc, Some _ =>
      if map_has serviceId serviceMap then
        match map_get serviceId serviceMap with
        | Some existing =>
            map_set serviceId
              (mkOwnerService (os_service_id existing) (service_name existing)
                 (default_duration_min existing)
                 (total_resources existing + 1))
              serviceMap
        | None => serviceMap
        end
      else
        map_set serviceId
          (mkOwnerService serviceId (popular_products svc)
             (svc_default_duration_min svc) 1)
          serviceMap
  | _, _ => serviceMap
  end.

(** The map after the loop over [items]. *)
Definition build (items : list Item) : JsMap :=
  fold_left forEach_body items [].

(** [Array.from(serviceMap.values())] after the loop; [data?.] skips the
    loop when [data] is [null]. *)
Definition group (data : option (list Item)) : list OwnerService :=
  map_values (build (default [] data)).

(** An item counts when both joins matched. *)
Definition counts (item : Item) : bool :=
  match services item, businesses item with
  | Some _, Some _ => true
  | _, _ => false
  end.

(** The items that count for service [k], in order. *)
Definition of_service (k : Z) (items : list Item) : list Item :=
  filter (fun item => counts item = true /\ service_id item = k) items.

(** The entry of service [k] as its first counting item and their number
    determine it. *)
Definition entry_of (k : Z) (items : list Item) : option OwnerService :=
  match of_service k items with
  | [] => None
  | first :: _ =>
      match services first with
      | Some svc =>
          Some (mkOwnerService k (popular_products svc)
                  (svc_default_duration_min svc)
                  (Z.of_nat (length (of_service k items))))
      | None => None
      end
  end.

Definition sum_resources (l : list OwnerService) : Z :=
  fold_right (fun v acc => total_resources v + acc) 0 l.

(** ** Properties *)

Section Grouping.

Implicit Types (m : JsMap) (k : Z) (v : OwnerService) (item : Item)
  (items : list Item).

Lemma map_has_get k m : map_has k m = true <-> is_Some (map_get k m).
Proof.
  unfold map_has, map_get. destruct (find _ m); simpl.
  - split; eauto.
  - split; [discriminate|]. intros [? ?]. discriminate.
Qed.

Lemma map_get_set_eq k v m : map_get k (map_set k v m) = Some v.
Proof.
  unfold map_get. induction m as [|[k' v'] m IH]; simpl.
  - rewrite Z.eqb_refl. reflexivity.
  - destruct (Z.eqb_spec k' k); simpl.
    + rewrite Z.eqb_refl. reflexivity.
    + destruct (Z.eqb_spec k' k); [contradiction|]. exact IH.
Qed.

Lemma map_get_set_ne k k' v m :
  k <> k' -> map_get k' (map_set k v m) = map_get k' m.
Proof.
  intros Hne. unfold map_get. induction m as [|[k0 v0] m IH]; simpl.
  - destruct (Z.eqb_spec k k'); [contradiction|]. reflexivity.
  - destruct (Z.eqb_spec k0 k) as [->|]; simpl.
    + destruct (Z.eqb_spec k k'); [contradiction|]. reflexivity.
    + destruct (Z.eqb_spec k0 k'); [reflexivity|]. exact IH.
Qed.

Lemma map_set_keys k v m :
  map fst (map_set k v m)
  = if map_has k m then map fst m else (map fst m ++ [k])%list.
Proof.
  unfold map_has. induction m as [|[k' v'] m IH]; simpl; [reflexivity|].
  destruct (Z.eqb_spec k' k) as [->|]; simpl; [reflexivity|].
  rewrite IH. destruct (find _ m); reflexivity.
Qed.

Lemma map_has_keys k m : map_has k m = true <-> k ∈ map fst m.
Proof.
  unfold map_has. induction m as [|[k' v'] m IH]; simpl.
  - split; [discriminate|]. intros H. apply elem_of_nil in H. contradiction.
  - destruct (Z.eqb_spec k' k) as [->|Hne].
    + split; [intros _; left|reflexivity].
    + rewrite elem_of_cons. rewrite IH. split; [auto|].
      intros [->|H]; [contradiction|exact H].
Qed.

Lemma sum_resources_set k v v0 m :
  map_get k m = Some v0 ->
  sum_resources (map_values (map_set k v m))
  = sum_resources (map_values m) - total_resources v0 + total_resources v.
Proof.
  unfold map_get, map_values. induction m as [|[k' v'] m IH]; simpl;
    [discriminate|].
  destruct (Z.eqb_spec k' k) as [->|]; simpl.
  - intros [= ->]. lia.
  - intros H. rewrite (IH H). lia.
Qed.

Lemma sum_resources_set_new k v m :
  map_get k m = None ->
  sum_resources (map_values (map_set k v m))
  = sum_resources (map_values m) + total_resources v.
Proof.
  unfold map_get, map_values. induction m as [|[k' v'] m IH]; simpl;
    [lia|].
  destruct (Z.eqb_spec k' k) as [->|]; simpl; [discriminate|].
  intros H. rewrite (IH H). lia.
Qed.

Lemma build_snoc items item :
  build (items ++ [item]) = forEach_body (build items) item.
Proof. unfold build. rewrite fold_left_app. reflexivity. Qed.

Lemma counts_services item :
  counts item = true <-> is_Some (services item) /\ is_Some (businesses item).
Proof.
  unfold counts. destruct (services item), (businesses item); split;
    intros H; try discriminate; try reflexivity; eauto;
    destruct H as [[? ?] [? ?]]; discriminate.
Qed.

Lemma of_service_snoc k items item :
  of_service k (items ++ [item])
  = (of_service k items
     ++ if decide (counts item = true /\ service_id item = k)
        then [item] else [])%list.
Proof.
  unfold of_service. rewrite filter_app. reflexivity.
Qed.

Lemma of_service_counts k items item :
  item ∈ of_service k items -> counts item = true /\ service_id item = k.
Proof. unfold of_service. intros H. apply list_elem_of_filter in H. tauto. Qed.

Lemma entry_of_Some k items first rest :
  of_service k items = first :: rest ->
  exists svc,
    services first = Some svc
    /\ entry_of k items
       = Some (mkOwnerService k (popular_products svc)
                 (svc_default_duration_min svc)
                 (Z.of_nat (length (first :: rest)))).
Proof.
  intros Hof.
  assert (Hc : counts first = true).
  { apply (of_service_counts k items). rewrite Hof. left. }
  apply counts_services in Hc as [[svc Hsvc] _].
  exists svc. split; [exact Hsvc|].
  unfold entry_of. rewrite Hof, Hsvc. reflexivity.
Qed.

Lemma entry_of_None k items :
  entry_of k items = None -> of_service k items = [].
Proof.
  destruct (of_service k items) as [|first rest] eqn:Hof; [reflexivity|].
  destruct (entry_of_Some k items first rest Hof) as (svc & _ & ->).
  discriminate.
Qed.

(** What the map holds for a key after the loop: the entry of that
    service, if any item counts for it. *)
Lemma map_get_build items : forall k, map_get k (build items) = entry_of k items.
Proof.
  induction items as [|item items IH] using rev_ind; intros k;
    [reflexivity|].
  rewrite build_snoc. unfold forEach_body.
  assert (Hskip : counts item = false ->
            entry_of k (items ++ [item]) = entry_of k items).
  { intros Hc. unfold entry_of. rewrite of_service_snoc.
    rewrite decide_False by (rewrite Hc; intros [? _]; discriminate).
    rewrite app_nil_r. reflexivity. }
  destruct (services item) as [svc|] eqn:Hsvc;
    [|rewrite Hskip by (unfold counts; rewrite Hsvc; reflexivity); apply IH].
  destruct (businesses item) as [biz|] eqn:Hbiz;
    [|rewrite Hskip by (unfold counts; rewrite Hsvc, Hbiz; reflexivity);
      apply IH].
  assert (Hc : counts item = true)
    by (unfold counts; rewrite Hsvc, Hbiz; reflexivity).
  assert (Hother : service_id item <> k ->
            entry_of k (items ++ [item]) = entry_of k items).
  { intros Hne. unfold entry_of. rewrite of_service_snoc.
    rewrite decide_False by tauto. rewrite app_nil_r. reflexivity. }
  destruct (map_has (service_id item) (build items)) eqn:Hhas.
  - apply map_has_get in Hhas as [existing Hget]. rewrite Hget.
    destruct (decide (service_id item = k)) as [<-|Hne].
    + rewrite map_get_set_eq. rewrite IH in Hget.
      destruct (of_service (service_id item) items) as [|first rest] eqn:Hof.
      { unfold entry_of in Hget. rewrite Hof in Hget. discriminate. }
      destruct (entry_of_Some _ _ _ _ Hof) as (svc1 & Hs1 & Hentry).
      rewrite Hentry in Hget. injection Hget as <-. simpl.
      unfold entry_of. rewrite of_service_snoc, Hof.
      rewrite decide_True by tauto. simpl. rewrite Hs1.
      rewrite length_app. simpl. do 2 f_equal. lia.
    + rewrite map_get_set_ne by exact Hne. rewrite Hother by exact Hne.
      apply IH.
  - assert (Hnone : map_get (service_id item) (build items) = None).
    { destruct (map_get (service_id item) (build items)) eqn:Hget;
        [|reflexivity].
      assert (map_has (service_id item) (build items) = true)
        by (apply map_has_get; eauto).
      congruence. }
    destruct (decide (service_id item = k)) as [<-|Hne].
    + rewrite map_get_set_eq. rewrite IH in Hnone.
      apply entry_of_None in Hnone.
      unfold entry_of. rewrite of_service_snoc, Hnone.
      rewrite decide_True by tauto. simpl. rewrite Hsvc. reflexivity.
    + rewrite map_get_set_ne by exact Hne. rewrite Hother by exact Hne.
      apply IH.
Qed.

Lemma build_keys_NoDup items : NoDup (map fst (build items)).
Proof.
  induction items as [|item items IH] using rev_ind; [constructor|].
  rewrite build_snoc. unfold forEach_body.
  destruct (services item); [|exact IH].
  destruct (businesses item); [|exact IH].
  destruct (map_has (service_id item) (build items)) eqn:Hhas.
  - destruct (map_get (service_id item) (build items)); [|exact IH].
    rewrite map_set_keys, Hhas. exact IH.
  - rewrite map_set_keys, Hhas. apply NoDup_app. split; [exact IH|].
    split; [|apply NoDup_singleton].
    intros x Hx Hin. apply list_elem_of_singleton in Hin. subst x.
    apply map_has_keys in Hx. congruence.
Qed.

Lemma map_get_elem_of k v m : map_get k m = Some v -> (k, v) ∈ m.
Proof.
  unfold map_get. induction m as [|[k' v'] m IH]; simpl; [discriminate|].
  destruct (Z.eqb_spec k' k) as [->|]; simpl.
  - intros [= ->]. left.
  - intros H. right. apply IH, H.
Qed.

Lemma elem_of_map_get k v m :
  NoDup (map fst m) -> (k, v) ∈ m -> map_get k m = Some v.
Proof.
  unfold map_get. induction m as [|[k' v'] m IH]; simpl; intros Hnd Hin.
  - apply elem_of_nil in Hin. contradiction.
  - apply NoDup_cons in Hnd as [Hfresh Hnd].
    apply elem_of_cons in Hin as [[= -> ->]|Hin].
    + rewrite Z.eqb_refl. reflexivity.
    + destruct (Z.eqb_spec k' k) as [->|]; [|apply IH; assumption].
      exfalso. apply Hfresh. apply list_elem_of_fmap. exists (k, v). auto.
Qed.

Lemma group_elem_of data v :
  v ∈ group data <-> entry_of (os_service_id v) (default [] data) = Some v.
Proof.
  unfold group, map_values. split.
  - intros Hin. apply list_elem_of_fmap in Hin as ([k v'] & -> & Hin). simpl.
    apply elem_of_map_get in Hin; [|apply build_keys_NoDup].
    rewrite map_get_build in Hin.
    assert (Hk : os_service_id v' = k).
    { unfold entry_of in Hin.
      destruct (of_service k (default [] data)) as [|first ?];
        [discriminate|].
      destruct (services first); [|discriminate].
      injection Hin as <-. reflexivity. }
    rewrite Hk. exact Hin.
  - intros Hentry. rewrite <- map_get_build in Hentry.
    apply map_get_elem_of in Hentry.
    apply list_elem_of_fmap. exists (os_service_id v, v). auto.
Qed.

(** X20. Every row of the table is a service some item counts for: its
    name and default duration are those of the first item of the data
    that has both joins and that [service_id], and its total is the
    number of such items. *)
Theorem group_row_is_first_item_and_count data v :
  v ∈ group data ->
  exists first rest svc,
    of_service (os_service_id v) (default [] data) = first :: rest
    /\ services first = Some svc
    /\ service_name v = popular_products svc
    /\ default_duration_min v = svc_default_duration_min svc
    /\ total_resources v = Z.of_nat (length (first :: rest)).
Proof.
  intros Hin. apply group_elem_of in Hin.
  destruct (of_service (os_service_id v) (default [] data))
    as [|first rest] eqn:Hof.
  - unfold entry_of in Hin. rewrite Hof in Hin. discriminate.
  - destruct (entry_of_Some _ _ _ _ Hof) as (svc & Hsvc & Hentry).
    rewrite Hentry in Hin. injection Hin as <-.
    exists first, rest, svc. auto.
Qed.

(** X21. Every item with both joins is counted in the table: there is a
    row for its [service_id]; and no two rows have the same
    [service_id]. *)
Theorem group_covers_counting_items data item :
  item ∈ default [] data ->
  counts item = true ->
  (exists v, v ∈ group data /\ os_service_id v = service_id item)
  /\ NoDup (map os_service_id (group data)).
Proof.
  intros Hin Hc. split.
  - destruct (of_service (service_id item) (default [] data))
      as [|first rest] eqn:Hof.
    + assert (Hmem : item ∈ of_service (service_id item) (default [] data))
        by (apply list_elem_of_filter; auto).
      rewrite Hof in Hmem. apply elem_of_nil in Hmem. contradiction.
    + destruct (entry_of_Some _ _ _ _ Hof) as (svc & _ & Hentry).
      exists (mkOwnerService (service_id item) (popular_products svc)
                (svc_default_duration_min svc)
                (Z.of_nat (length (first :: rest)))).
      split; [apply group_elem_of; exact Hentry|reflexivity].
  - unfold group, map_values.
    replace (map os_service_id (map snd (build (default [] data))))
      with (map fst (build (default [] data))); [apply build_keys_NoDup|].
    rewrite map_map. apply map_ext_in. intros [k v] Hkv. simpl.
    apply list_elem_of_In in Hkv.
    assert (Hv : v ∈ group data)
      by (apply list_elem_of_fmap; exists (k, v); auto).
    apply elem_of_map_get in Hkv; [|apply build_keys_NoDup].
    apply group_elem_of in Hv. rewrite map_get_build in Hkv.
    unfold entry_of in Hkv.
    destruct (of_service k (default [] data)) as [|first ?]; [discriminate|].
    destruct (services first); [|discriminate].
    injection Hkv as <-. reflexivity.
Qed.

(** X22. The totals of the rows add up to the number of items that have
    both joins: every such item is counted once, the others not at
    all. *)
Theorem group_totals_add_up data :
  sum_resources (group data)
  = Z.of_nat (length (filter (fun item => counts item = true)
                        (default [] data))).
Proof.
  unfold group. generalize (default [] data). intros items.
  induction items as [|item items IH] using rev_ind; [reflexivity|].
  rewrite build_snoc, filter_app, length_app, filter_cons, filter_nil.
  unfold forEach_body, counts in *.
  destruct (services item) as [svc|];
    [|rewrite decide_False by discriminate; simpl; rewrite IH; lia].
  destruct (businesses item) as [biz|];
    [|rewrite decide_False by discriminate; simpl; rewrite IH; lia].
  rewrite decide_True by reflexivity. simpl.
  destruct (map_has (service_id item) (build items)) eqn:Hhas.
  - apply map_has_get in Hhas as [existing Hget]. rewrite Hget.
    rewrite (sum_resources_set _ _ existing) by exact Hget.
    simpl. rewrite IH. lia.
  - rewrite sum_resources_set_new; [simpl; rewrite IH; lia|].
    destruct (map_get (service_id item) (build items)) eqn:Hget;
      [|reflexivity].
    assert (map_has (service_id item) (build items) = true)
      by (apply map_has_get; eauto).
    congruence.
Qed.

(** X23. The order of the data changes no total: for data with the same
    items in another order, each row has a row of the same service with
    the same total. *)
Theorem group_totals_ignore_order items items' v :
  items ≡ₚ items' ->
  v ∈ group (Some items) ->
  exists v', v' ∈ group (Some items')
    /\ os_service_id v' = os_service_id v
    /\ total_resources v' = total_resources v.
Proof.
  intros Hperm Hin. apply group_elem_of in Hin. simpl in Hin.
  assert (Hp : of_service (os_service_id v) items
               ≡ₚ of_service (os_service_id v) items').
  { unfold of_service. rewrite Hperm. reflexivity. }
  destruct (of_service (os_service_id v) items) as [|first rest] eqn:Hof.
  { unfold entry_of in Hin. rewrite Hof in Hin. discriminate. }
  destruct (entry_of_Some _ _ _ _ Hof) as (svc & _ & Hentry).
  rewrite Hentry in Hin. injection Hin as Hv.
  destruct (of_service (os_service_id v) items') as [|first' rest'] eqn:Hof'.
  { apply Permutation_nil_r in Hp. discriminate. }
  destruct (entry_of_Some _ _ _ _ Hof') as (svc' & _ & Hentry').
  exists (mkOwnerService (os_service_id v) (popular_products svc')
            (svc_default_duration_min svc')
            (Z.of_nat (length (first' :: rest')))).
  split; [apply group_elem_of; exact Hentry'|].
  split; [reflexivity|]. simpl. rewrite <- Hv. simpl.
  f_equal. symmetry. apply (Permutation_length Hp).
Qed.

(** X24. The table is empty, and the component renders nothing, exactly
    when no item of the data has both joins; [null] data is such a case. *)
Theorem group_empty_iff data :
  group data = []
  <-> filter (fun item => counts item = true) (default [] data) = [].
Proof.
  split.
  - intros Hnil.
    destruct (filter _ (default [] data)) as [|item rest] eqn:Hf;
      [reflexivity|].
    assert (Hitem : item ∈ filter (fun item => counts item = true)
                             (default [] data)) by (rewrite Hf; left).
    apply list_elem_of_filter in Hitem as [Hc Hin].
    destruct (of_service (service_id item) (default [] data))
      as [|first others] eqn:Hof.
    + assert (Hmem : item ∈ of_service (service_id item) (default [] data))
        by (apply list_elem_of_filter; auto).
      rewrite Hof in Hmem. apply elem_of_nil in Hmem. contradiction.
    + destruct (entry_of_Some _ _ _ _ Hof) as (svc & _ & Hentry).
      apply (group_elem_of data
               (mkOwnerService (service_id item) (popular_products svc)
                  (svc_default_duration_min svc)
                  (Z.of_nat (length (first :: others))))) in Hentry.
      rewrite Hnil in Hentry. apply elem_of_nil in Hentry. contradiction.
  - intros Hnone.
    destruct (group data) as [|v rest] eqn:Hg; [reflexivity|].
    assert (Hv : v ∈ group data) by (rewrite Hg; left).
    apply group_elem_of in Hv.
    destruct (of_service (os_service_id v) (default [] data))
      as [|first others] eqn:Hof.
    + unfold entry_of in Hv. rewrite Hof in Hv. discriminate.
    + assert (Hfirst : first ∈ of_service (os_service_id v) (default [] data))
        by (rewrite Hof; left).
      apply list_elem_of_filter in Hfirst as [[Hc _] Hin].
      assert (Hmem : first ∈ filter (fun item => counts item = true)
                               (default [] data))
        by (apply list_elem_of_filter; auto).
      rewrite Hnone in Hmem. apply elem_of_nil in Hmem. contradiction.
Qed.

End Grouping.

(** ** The properties on sample data *)

Module Sample.

Definition futsal : ServiceRef := mkServiceRef 1 "Futsal Field Rental" None.
Definition badminton : ServiceRef := mkServiceRef 2 "Badminton Court" (Some 45).
Definition owner : BusinessRef := mkBusinessRef "u1".

(** Two futsal fields and a badminton court of the owner, and a futsal
    field of somebody else, whose [businesses] join is [null]. *)
Definition rows : list Item :=
  [mkItem 1 (Some futsal) "b1" (Some owner);
   mkItem 2 (Some badminton) "b1" (Some owner);
   mkItem 1 (Some futsal) "b9" None;
   mkItem 1 (Some futsal) "b1" (Some owner)].

Definition futsal_row : OwnerService :=
  mkOwnerService 1 "Futsal Field Rental" None 2.

End Sample.

Section GroupingOnSample.

Import Sample.

Lemma group_row_is_first_item_and_count_sample :
  futsal_row ∈ group (Some rows)
  /\ exists first rest svc,
       of_service 1 rows = first :: rest
       /\ services first = Some svc
       /\ service_name futsal_row = popular_products svc
       /\ default_duration_min futsal_row = svc_default_duration_min svc
       /\ total_resources futsal_row = Z.of_nat (length (first :: rest)).
Proof.
  assert (Hin : futsal_row ∈ group (Some rows)) by (vm_compute; left).
  split; [exact Hin|].
  apply (group_row_is_first_item_and_count (Some rows) futsal_row Hin).
Defined.

Lemma group_covers_counting_items_sample :
  (exists v, v ∈ group (Some rows) /\ os_service_id v = 2)
  /\ NoDup (map os_service_id (group (Some rows))).
Proof.
  apply (group_covers_counting_items (Some rows)
           (mkItem 2 (Some badminton) "b1" (Some owner))).
  - right. left.
  - reflexivity.
Defined.

Lemma group_totals_ignore_order_sample :
  exists v', v' ∈ group (Some (rev rows))
    /\ os_service_id v' = 1
    /\ total_resources v' = 2.
Proof.
  apply (group_totals_ignore_order rows (rev rows) futsal_row).
  - apply Permutation_rev.
  - vm_compute. left.
Defined.

End GroupingOnSample.

End OwnerServicesTable.
